(** * xk6-mock-server: the HTTP export wrapper of package [mock]

    A shallow embedding of [mock/http.go] (the functions [wrapHTTPExports],
    [parseBody] and [wrap]) together with the part of the script runtime
    (github.com/grafana/sobek) that these functions call: object property
    reads and writes, [AssertFunction], [Export], [ToValue] and
    [GlobalObject].

    Go code that mutates the runtime is written in a state monad over
    [State]; a Go panic is an [Outcome] other than [Ok].

    Objects live in a heap and are referred to by address, so that two
    arguments, or an argument and an attribute, can be the same object.
    An object has data properties of its own, each writable or read-only;
    prototype chains and accessor properties are not part of the model. *)

From Stdlib Require Import ZArith.
From stdpp Require Import gmap strings list.

Local Open Scope string_scope.
Local Open Scope Z_scope.

(** ** Script values *)

(** Heap address of a [*sobek.Object]. *)
Definition loc := nat.

(** A non-nil [sobek.Value].  The Go [nil] interface value, which
    [Object.Get] returns for a property that does not exist, is the [None]
    of [option Value]. Numbers are integers: the code never looks inside a
    number. *)
Inductive Value : Type :=
  | VUndefined
  | VNull
  | VBool (b : bool)
  | VInt (n : Z)
  | VString (s : string)
  | VObject (l : loc).

Arguments VObject l%_nat.

(** What a function object does when it is called: either a function of the
    host (the k6 HTTP client, a test double), known by its number, or the
    closure that [wrap] builds, which captures the callable it replaces and
    the configured argument index. *)
Inductive Func : Type :=
  | Native (id : nat)
  | Wrapper (callable : Func) (index : Z).

Arguments Native id%_nat.

(** The class of an object, as far as [AssertFunction] and [Export] tell
    them apart: an ordinary object, a function, or a [String] wrapper
    object (which exports as the Go string it wraps). *)
Inductive Kind : Type :=
  | KPlain
  | KFunction (f : Func)
  | KStringObj (s : string).

(** A data property. *)
Record Property : Type := mkProperty {
  p_value : Value;
  p_writable : bool
}.

Record Object : Type := mkObject {
  o_props : gmap string Property;
  o_extensible : bool;
  o_kind : Kind
}.

(** The dynamic type and content of what [Value.Export] returns, as far as a
    Go type assertion can see it. *)
Inductive GoVal : Type :=
  | GoNil
  | GoBool (b : bool)
  | GoInt (n : Z)
  | GoString (s : string)
  | GoMap
  | GoFunc.

(** ** Failures *)

(** A Go [error] travelling through the runtime. *)
Inductive Error : Type :=
  | InvalidArg (msg : string)     (* errInvalidArg, wrapped by throwf *)
  | TypeError (msg : string)      (* a rejected property assignment *)
  | Raised (v : Value).           (* an exception raised by a callable *)

(** How a Go call ends: it returns, it panics with a script exception (what
    [common.Throw] does; the runtime hands it to the calling script, and a
    [sobek.Callable] returns it as its [error]), or it panics with a Go
    run-time error. *)
Inductive Outcome (A : Type) : Type :=
  | Ok (a : A)
  | Throw (e : Error)
  | Crash (msg : string).

Arguments Ok {A} a.
Arguments Throw {A} e.
Arguments Crash {A} msg.

(** ** Runtime state *)

(** One call of a host function: its number, receiver and arguments. *)
Definition CallEvent : Type := nat * Value * list Value.

Record State : Type := mkState {
  heap : list Object;               (* the objects of the runtime *)
  lookup : gmap string string;      (* mod.lookup *)
  global : loc;                     (* the runtime's global object *)
  calls : list CallEvent            (* host calls made so far, oldest first *)
}.

Definition with_heap (st : State) (h : list Object) : State :=
  {| heap := h; lookup := lookup st; global := global st; calls := calls st |}.

Definition log_call (st : State) (ev : CallEvent) : State :=
  {| heap := heap st; lookup := lookup st; global := global st;
     calls := calls st ++ [ev] |}.

(** Stateful Go code. *)
Definition M (A : Type) : Type := State -> State * Outcome A.

#[global] Instance M_ret : MRet M := fun A a st => (st, Ok a).

#[global] Instance M_bind : MBind M := fun A B f m st =>
  match m st with
  | (st', Ok a) => f a st'
  | (st', Throw e) => (st', Throw e)
  | (st', Crash msg) => (st', Crash msg)
  end.

Definition get_state : M State := fun st => (st, Ok st).
Definition throw {A} (e : Error) : M A := fun st => (st, Throw e).
Definition crash {A} (msg : string) : M A := fun st => (st, Crash msg).

(** ** The runtime operations that package [mock] calls *)

Module sobek.

(** [o.Get(name)]: the value of the property, Go [nil] when there is
    none. *)
Definition Get (h : list Object) (o : loc) (name : string) : option Value :=
  obj ← h !! o; p ← o_props obj !! name; Some (p_value p).

Arguments Get h o%_nat name.

(** The object after a successful [o.Set(name, v)], or the reason why the
    assignment is rejected: the property is read-only, or it is new and
    the object takes no new properties. *)
Definition assign (obj : Object) (name : string) (v : Value)
  : Object + Error :=
  match o_props obj !! name with
  | Some p =>
      if p_writable p
      then inl {| o_props := <[name := {| p_value := v; p_writable := true |}]> (o_props obj);
                  o_extensible := o_extensible obj; o_kind := o_kind obj |}
      else inr (TypeError ("Cannot assign to read only property '" +:+ name +:+ "'"))
  | None =>
      if o_extensible obj
      then inl {| o_props := <[name := {| p_value := v; p_writable := true |}]> (o_props obj);
                  o_extensible := o_extensible obj; o_kind := o_kind obj |}
      else inr (TypeError ("Cannot add property " +:+ name +:+ ", object is not extensible"))
  end.

(** [o.Set(name, v)] returns its failure as a Go [error]; it does not
    panic. *)
Definition Set_ (o : loc) (name : string) (v : Value) : M (option Error) :=
  fun st =>
    match heap st !! o with
    | Some obj =>
        match assign obj name v with
        | inl obj' => (with_heap st (<[o := obj']> (heap st)), Ok None)
        | inr e => (st, Ok (Some e))
        end
    | None => (st, Ok (Some (TypeError "Cannot set property of a missing object")))
    end.

(** [AssertFunction(v)]: the callable behind [v], when [v] is a function
    object. *)
Definition AssertFunction (h : list Object) (v : option Value) : option Func :=
  match v with
  | Some (VObject l) =>
      match h !! l with
      | Some obj => match o_kind obj with KFunction f => Some f | _ => None end
      | None => None
      end
  | _ => None
  end.

(** [v.Export()]. *)
Definition Export (h : list Object) (v : Value) : GoVal :=
  match v with
  | VUndefined | VNull => GoNil
  | VBool b => GoBool b
  | VInt n => GoInt n
  | VString s => GoString s
  | VObject l =>
      match h !! l with
      | Some obj =>
          match o_kind obj with
          | KPlain => GoMap
          | KFunction _ => GoFunc
          | KStringObj s => GoString s
          end
      | None => GoNil
      end
  end.

(** [rt.ToValue(f)] for a Go function [f]: a new function object. *)
Definition ToValue_func (f : Func) : M Value :=
  fun st =>
    (with_heap st (heap st ++ [ {| o_props := ∅; o_extensible := true; o_kind := KFunction f |} ]),
     Ok (VObject (length (heap st)))).

(** [rt.GlobalObject()]. *)
Definition GlobalObject : M Value := fun st => (st, Ok (VObject (global st))).

End sobek.

(** ** Package [mock] *)

(** [args[index]] of a Go slice: [None] is where Go panics with an index out
    of range. *)
Definition arg_at (args : list Value) (index : Z) : option Value :=
  if index <? 0 then None else args !! Z.to_nat index.

(** Modelled from the spec: the URL rewriter on one value. The Go source of
    [rewrite] (a method of [Module], declared outside http.go) is not
    available, so this follows the specification of the URL Rewriter: a
    textual value that is a key of the Lookup Table is replaced by the
    mapped value, every other value is returned unchanged. *)
Definition rewrite_value (tbl : gmap string string) (v : Value) : Value :=
  match v with
  | VString s =>
      match tbl !! s with
      | Some t => VString t
      | None => v
      end
  | _ => v
  end.

(** Modelled from the spec: [mod.rewrite(args, index)], the rewriter applied
    to the argument at [index] with write-back into the slot; an index with
    no argument is a silent no-op. The result is the content of the slice
    afterwards. *)
Definition rewrite (args : list Value) (index : Z) : M (list Value) :=
  fun st =>
    match arg_at args index with
    | Some v => (st, Ok (<[Z.to_nat index := rewrite_value (lookup st) v]> args))
    | None => (st, Ok args)
    end.

(** Modelled from the spec: [mod.throwf(format, errInvalidArg, args...)],
    declared outside http.go, raises the setup failure; [msg] is the
    formatted text. *)
Definition throwf {A} (msg : string) : M A := throw (InvalidArg msg).

(** k6's [common.Throw(rt, err)]: panic with [err] as a script exception. *)
Definition common_Throw {A} (err : Error) : M A := throw err.

Definition urlFirstMethods : list string :=
  ["get"; "head"; "post"; "put"; "patch"; "options"; "del"].

Definition urlSecondMethods : list string :=
  ["request"; "asyncRequest"].

(** [mod.parseBody(args, index)]. It writes to the heap only; the slice is
    not assigned to. *)
Definition parseBody (args : list Value) (index : Z) : M unit :=
  match arg_at args index with
  | None => crash "index out of range"
  | Some (VObject reqObj) =>
      st ← get_state;
      match sobek.Get (heap st) reqObj "body" with
      | None | Some VUndefined => mret tt
      | Some bodyVal =>
          match sobek.Export (heap st) bodyVal with
          | GoString body =>
              _ ← sobek.Set_ reqObj "body" (VString body);
              mret tt
          | _ => mret tt
          end
      end
  | Some _ => mret tt
  end.

(** A [sobek.Callable]: it returns the value or the error. *)
Definition Callable : Type := Value -> list Value -> M (Value + Error).

(** The [sobek.Callable] made from a function body: a script exception
    becomes the returned [error], a Go run-time panic goes through. *)
Definition as_callable (body : Value -> list Value -> M Value) : Callable :=
  fun this args st =>
    match body this args st with
    | (st', Ok v) => (st', Ok (inl v))
    | (st', Throw e) => (st', Ok (inr e))
    | (st', Crash msg) => (st', Crash msg)
    end.

(** The closure [wrapper] of [wrap], applied to [call.Arguments]. It does
    not read [call.This]. The result of the first step is the content of
    the argument slice when the callable is invoked. *)
Definition wrapper (callable : Callable) (index : Z) (arguments : list Value)
  : M Value :=
  arguments ← (if Z.of_nat (length arguments) >? index
               then arguments' ← rewrite arguments index;
                    _ ← parseBody arguments' index;
                    mret arguments'
               else mret arguments);
  this ← sobek.GlobalObject;
  r ← callable this arguments;
  match r with
  | inr err => common_Throw err
  | inl v => mret v
  end.

Section Host.

(** The functions of the host: given the receiver, the arguments and the
    heap, a host function leaves a heap and an outcome. *)
Variable host : nat -> Value -> list Value -> list Object
                -> list Object * Outcome Value.

Definition call_host (id : nat) (this : Value) (args : list Value) : M Value :=
  fun st =>
    let '(h', r) := host id this args (heap st) in
    (with_heap (log_call st (id, this, args)) h', r).

(** Calling a function object. *)
Fixpoint invoke (f : Func) (this : Value) (args : list Value) : M Value :=
  match f with
  | Native id => call_host id this args
  | Wrapper callable index =>
      wrapper (as_callable (invoke callable)) index args
  end.

End Host.

(** [mod.wrap(this, method, index)]. *)
Definition wrap (this : loc) (method : string) (index : Z) : M unit :=
  st ← get_state;
  let v := sobek.Get (heap st) this method in
  match sobek.AssertFunction (heap st) v with
  | None => throwf (method +:+ " must be callable")
  | Some callable =>
      w ← sobek.ToValue_func (Wrapper callable index);
      err ← sobek.Set_ this method w;
      match err with
      | Some e => common_Throw e
      | None => mret tt
      end
  end.

Arguments wrap this%_nat method index.

(** A Go [for ... range] loop over a slice. *)
Fixpoint for_range {A : Type} (l : list A) (body : A -> M unit) : M unit :=
  match l with
  | [] => mret tt
  | x :: l' => _ ← body x; for_range l' body
  end.

(** [mod.wrapHTTPExports(defaults)]. *)
Definition wrapHTTPExports (defaults : loc) : M unit :=
  _ ← for_range urlFirstMethods (fun method => wrap defaults method 0);
  for_range urlSecondMethods (fun method => wrap defaults method 1).

Arguments wrapHTTPExports defaults%_nat.

(** ** Vocabulary of the statements *)

(** The first step of [wrapper]: what happens to the arguments before the
    original callable is invoked. *)
Definition intercept (index : Z) (arguments : list Value) : M (list Value) :=
  if Z.of_nat (length arguments) >? index
  then arguments' ← rewrite arguments index;
       _ ← parseBody arguments' index;
       mret arguments'
  else mret arguments.

(** [parseBody] applied [n] times in a row. *)
Fixpoint parseBody_times (n : nat) (args : list Value) (index : Z) : M unit :=
  match n with
  | O => mret tt
  | S n' => _ ← parseBody args index; parseBody_times n' args index
  end.

(** The [body] attribute of [reqObj] holds the text [s]. *)
Definition text_body (h : list Object) (reqObj : loc) (s : string) : Prop :=
  exists bodyVal,
    sobek.Get h reqObj "body" = Some bodyVal /\
    sobek.Export h bodyVal = GoString s.

Arguments text_body h reqObj%_nat s.

(** [v] is a structured value that is not a text. *)
Definition nontext_object (h : list Object) (v : Value) : Prop :=
  exists l obj,
    v = VObject l /\ h !! l = Some obj /\ forall s, o_kind obj <> KStringObj s.

(** [x] is a textual value that is a key of the table. *)
Definition is_key (tbl : gmap string string) (x : Value) : Prop :=
  exists K, x = VString K /\ is_Some (tbl !! K).

(** The attribute [method] of [obj] holds the function object of [f] and
    accepts an assignment. *)
Definition wrappable (h : list Object) (obj : Object) (method : string)
  (f : Func) : Prop :=
  exists p,
    o_props obj !! method = Some p /\
    p_writable p = true /\
    sobek.AssertFunction h (Some (p_value p)) = Some f.

(** The attribute [method] of the object at [this] is the closure that
    [wrap] builds around [f] with [index]. *)
Definition wrapped (st : State) (this : loc) (method : string)
  (f : Func) (index : Z) : Prop :=
  sobek.AssertFunction (heap st) (sobek.Get (heap st) this method)
  = Some (Wrapper f index).

Arguments wrapped st this%_nat method f index.

(** The runtime after [wrap this method index] has succeeded on the object
    [obj] at [this], whose attribute [method] was the function [f]: one new
    function object for the closure, and the attribute assigned. *)
Definition after_wrap (st : State) (this : loc) (method : string) (index : Z)
  (obj : Object) (f : Func) : State :=
  with_heap st
    (<[this := {| o_props := <[method := {| p_value := VObject (length (heap st));
                                            p_writable := true |}]> (o_props obj);
                  o_extensible := o_extensible obj;
                  o_kind := o_kind obj |}]>
       (heap st ++ [ {| o_props := ∅; o_extensible := true;
                        o_kind := KFunction (Wrapper f index) |} ])%list).

(** Every value that is a function in [h] is the same function in [h']. *)
Definition callables_kept (h h' : list Object) : Prop :=
  forall v g,
    sobek.AssertFunction h (Some v) = Some g ->
    sobek.AssertFunction h' (Some v) = Some g.

(** ** Sample objects and states *)

Definition function_object (f : Func) : Object :=
  {| o_props := ∅; o_extensible := true; o_kind := KFunction f |}.

Definition plain_object (props : list (string * Value)) : Object :=
  {| o_props := list_to_map (prod_map id (fun v => mkProperty v true) <$> props);
     o_extensible := true; o_kind := KPlain |}.

(** [Object.freeze] of a plain object. *)
Definition frozen_object (props : list (string * Value)) : Object :=
  {| o_props := list_to_map (prod_map id (fun v => mkProperty v false) <$> props);
     o_extensible := false; o_kind := KPlain |}.

Definition sample_lookup : gmap string string :=
  {[ "https://example.com" := "https://example.net" ]}.

(** The runtime of [TestModuleWrap]: the global object, the target with
    [method] and [not_a_func], and the function behind [method]. *)
Definition sample_state : State :=
  {| heap := [ plain_object [];
               plain_object [("method", VObject 2); ("not_a_func", VInt 1)];
               function_object (Native 0) ];
     lookup := sample_lookup; global := 0%nat; calls := [] |}.

(** The same runtime with a frozen target. *)
Definition frozen_state : State :=
  {| heap := [ plain_object [];
               frozen_object [("method", VObject 2)];
               function_object (Native 0) ];
     lookup := sample_lookup; global := 0%nat; calls := [] |}.

(** A runtime with request descriptions: with a text body (1), without a
    body (2), with an undefined body (3), with an object as body (4), with
    a null body (5). *)
Definition request_state : State :=
  {| heap := [ plain_object [];
               plain_object [("body", VString "raw body content")];
               plain_object [];
               plain_object [("body", VUndefined)];
               plain_object [("body", VObject 0)];
               plain_object [("body", VNull)] ];
     lookup := sample_lookup; global := 0%nat; calls := [] |}.

(** A host whose functions return [undefined], except function 1, which
    raises its first argument. *)
Definition sample_host (id : nat) (this : Value) (args : list Value)
  (h : list Object) : list Object * Outcome Value :=
  match id, args with
  | 1%nat, v :: _ => (h, Throw (Raised v))
  | _, _ => (h, Ok VUndefined)
  end.

(** A caller invoking the attribute [method] of the object at [o], the way
    the tests do: [AssertFunction] on the attribute, then the callable. *)
Definition call_attribute
  (host : nat -> Value -> list Value -> list Object -> list Object * Outcome Value)
  (o : loc) (method : string) (receiver : Value) (args : list Value) : M Value :=
  fun st =>
    match sobek.AssertFunction (heap st) (sobek.Get (heap st) o method) with
    | Some f => invoke host f receiver args st
    | None => (st, Throw (TypeError (method +:+ " is not a function")))
    end.

Arguments call_attribute host o%_nat method receiver args.

(** The exports of an HTTP module: object 1 has one function per name of
    [names], function [i] behind the [i]-th name. *)
Definition exports_state (names : list string) : State :=
  {| heap := [ plain_object [];
               plain_object (imap (fun i name => (name, VObject (2 + i))) names) ]
             ++ imap (fun i _ => function_object (Native i)) names;
     lookup := sample_lookup; global := 0%nat; calls := [] |}.

(** ** Vocabulary of the further properties *)

(** The host function at the core of a function, under the closures that
    were wrapped around it. *)
Fixpoint innermost (f : Func) : nat :=
  match f with
  | Native id => id
  | Wrapper callable _ => innermost callable
  end.

(** No closure in [f] was built with a negative index. *)
Fixpoint indices_nonneg (f : Func) : Prop :=
  match f with
  | Native _ => True
  | Wrapper callable index => 0 <= index /\ indices_nonneg callable
  end.

(** The receiver that the host function at the core of [f] is called on,
    when [f] is called on [this]. *)
Definition receiver_seen (f : Func) (this : Value) (st : State) : Value :=
  match f with
  | Native _ => this
  | Wrapper _ _ => VObject (global st)
  end.

(** Every object of [h] is in [h'], with the same kind. *)
Definition kinds_kept (h h' : list Object) : Prop :=
  forall l obj,
    h !! l = Some obj ->
    exists obj', h' !! l = Some obj' /\ o_kind obj' = o_kind obj.

(** The attribute [method] of [obj] is absent, or holds a value that is not
    a function: a primitive, or an object of the heap of another kind. *)
Definition not_callable_attr (h : list Object) (obj : Object)
  (method : string) : Prop :=
  match o_props obj !! method with
  | None => True
  | Some p =>
      match p_value p with
      | VObject l =>
          exists o, h !! l = Some o /\ forall f, o_kind o <> KFunction f
      | _ => True
      end
  end.

(** The attribute [method] of [obj] holds the function object of [f] and is
    read-only. *)
Definition read_only_callable (h : list Object) (obj : Object)
  (method : string) (f : Func) : Prop :=
  exists p,
    o_props obj !! method = Some p /\
    p_writable p = false /\
    sobek.AssertFunction h (Some (p_value p)) = Some f.

(** The attributes that [wrapHTTPExports] wraps, each with the index of its
    loop, in the order of the two loops. *)
Definition registry : list (string * Z) :=
  ((fun method => (method, 0)) <$> urlFirstMethods) ++
  ((fun method => (method, 1)) <$> urlSecondMethods).

(** What setting up wrappers on the object at [this] can do to a runtime:
    objects are added, no object changes its kind, no object other than the
    target changes at all, and the table, the global object and the call
    log stay as they are. *)
Definition setup_step (this : loc) (st st' : State) : Prop :=
  lookup st' = lookup st /\ global st' = global st /\ calls st' = calls st /\
  (length (heap st) <= length (heap st'))%nat /\
  kinds_kept (heap st) (heap st') /\
  forall l, l <> this -> (l < length (heap st))%nat ->
    heap st' !! l = heap st !! l.

(** Exports of which [get] accepts an assignment and [head] is read-only. *)
Definition read_only_exports_state : State :=
  {| heap := [ plain_object [];
               {| o_props := {[ "get" := mkProperty (VObject 2) true;
                                "head" := mkProperty (VObject 3) false ]};
                  o_extensible := true; o_kind := KPlain |};
               function_object (Native 0);
               function_object (Native 1) ];
     lookup := sample_lookup; global := 0%nat; calls := [] |}.

(** A runtime with frozen request descriptions: with a text body (1) and
    with a [String] object as body (2, the object is 3). *)
Definition frozen_request_state : State :=
  {| heap := [ plain_object [];
               frozen_object [("body", VString "raw body content")];
               frozen_object [("body", VObject 3)];
               {| o_props := ∅; o_extensible := true;
                  o_kind := KStringObj "raw body content" |} ];
     lookup := sample_lookup; global := 0%nat; calls := [] |}.

(** * Properties *)

(** ** Running monadic code *)

Lemma run_bind {A B : Type} (m : M A) (f : A -> M B) (st : State) :
  (m ≫= f) st =
    match m st with
    | (st', Ok a) => f a st'
    | (st', Throw e) => (st', Throw e)
    | (st', Crash msg) => (st', Crash msg)
    end.
Proof. reflexivity. Qed.

Lemma run_ret {A : Type} (a : A) (st : State) : (mret a : M A) st = (st, Ok a).
Proof. reflexivity. Qed.

Ltac run :=
  repeat (rewrite run_bind || rewrite run_ret
          || unfold get_state, throw, crash, throwf, common_Throw);
  cbn [fst snd].

Lemma with_heap_same (st : State) : with_heap st (heap st) = st.
Proof. by destruct st. Qed.

(** ** The URL rewriter *)

Lemma rewrite_value_key (tbl : gmap string string) (K r : string) :
  tbl !! K = Some r -> rewrite_value tbl (VString K) = VString r.
Proof. intros H. cbn. by rewrite H. Qed.

Lemma rewrite_value_other (tbl : gmap string string) (x : Value) :
  ~ is_key tbl x -> rewrite_value tbl x = x.
Proof.
  intros Hx. destruct x as [| | | |s|]; try reflexivity.
  cbn. destruct (tbl !! s) as [t|] eqn:Hs; [|reflexivity].
  exfalso. apply Hx. exists s. split; [reflexivity | by exists t].
Qed.

Lemma rewrite_value_object (tbl : gmap string string) (x : Value) (l : loc) :
  rewrite_value tbl x = VObject l -> x = VObject l.
Proof.
  destruct x as [| | | |s|]; cbn; try done.
  by destruct (tbl !! s).
Qed.

Lemma rewrite_run (args : list Value) (index : Z) (st : State) :
  rewrite args index st =
    (st, Ok match arg_at args index with
            | Some v => <[Z.to_nat index := rewrite_value (lookup st) v]> args
            | None => args
            end).
Proof. unfold rewrite. by destruct (arg_at args index). Qed.

(** C1. For every string key [K] of the Lookup Table the rewriter returns
    the mapped replacement; every other value (a string that is not a key,
    a value that is not a string, any value when the table is empty) is
    returned unchanged; and rewriting an argument slot always completes
    without a failure, leaving the runtime as it was. *)
Theorem rewrite_lookup_or_unchanged (tbl : gmap string string) (x : Value) :
  (forall K r, x = VString K -> tbl !! K = Some r ->
     rewrite_value tbl x = VString r) /\
  (~ is_key tbl x -> rewrite_value tbl x = x) /\
  rewrite_value ∅ x = x /\
  (forall args index st,
     exists args', rewrite args index st = (st, Ok args') /\
                   length args' = length args).
Proof.
  split; [|split; [|split]].
  - intros K r -> HK. by apply rewrite_value_key.
  - apply rewrite_value_other.
  - apply rewrite_value_other. intros (K & _ & [r Hr]).
    by rewrite lookup_empty in Hr.
  - intros args index st. rewrite rewrite_run. eexists. split; [reflexivity|].
    destruct (arg_at args index); [apply length_insert | reflexivity].
Qed.

Lemma rewrite_lookup_or_unchanged_witness :
  rewrite_value sample_lookup (VString "https://example.com")
    = VString "https://example.net" /\
  rewrite_value sample_lookup (VString "https://example.org")
    = VString "https://example.org" /\
  rewrite_value sample_lookup (VInt 7) = VInt 7.
Proof.
  split; [|split].
  - apply (proj1 (rewrite_lookup_or_unchanged sample_lookup
                    (VString "https://example.com"))
             "https://example.com" "https://example.net");
      reflexivity.
  - apply (proj1 (proj2 (rewrite_lookup_or_unchanged sample_lookup
                           (VString "https://example.org")))).
    intros (K & HK & [r Hr]). injection HK as <-. vm_compute in Hr. discriminate.
  - apply (proj1 (proj2 (rewrite_lookup_or_unchanged sample_lookup (VInt 7)))).
    intros (K & HK & _). discriminate.
Defined.

(** ** Property assignment *)

Lemma Set_outcome (o : loc) (name : string) (v : Value) (st : State) :
  exists err, sobek.Set_ o name v st = (fst (sobek.Set_ o name v st), Ok err).
Proof.
  unfold sobek.Set_. destruct (heap st !! o) as [obj|]; [|eauto].
  destruct (sobek.assign obj name v); eauto.
Qed.

(** An assignment leaves the table, the global object and the call log
    alone, and touches no object but its target. *)
Lemma Set_frame (o : loc) (name : string) (v : Value) (st : State) :
  let st' := fst (sobek.Set_ o name v st) in
  lookup st' = lookup st /\ global st' = global st /\ calls st' = calls st /\
  length (heap st') = length (heap st) /\
  forall l, l <> o -> heap st' !! l = heap st !! l.
Proof.
  unfold sobek.Set_. destruct (heap st !! o) as [obj|]; [|done].
  destruct (sobek.assign obj name v) as [obj'|e]; [|done].
  cbn. repeat split; [apply length_insert|].
  intros l Hl. by apply list_lookup_insert_ne.
Qed.

(** An assignment to an existing attribute either is rejected, and nothing
    changes, or stores the value; storing the value that is already there
    changes nothing either. *)
Lemma Set_existing (o : loc) (name : string) (v old : Value) (st : State) :
  sobek.Get (heap st) o name = Some old ->
  let st' := fst (sobek.Set_ o name v st) in
  (st' = st \/ sobek.Get (heap st') o name = Some v) /\
  (old = v -> st' = st).
Proof.
  unfold sobek.Get, sobek.Set_, sobek.assign.
  destruct (heap st !! o) as [obj|] eqn:Hobj; [|done]. cbn.
  destruct (o_props obj !! name) as [p|] eqn:Hp; [|done]. cbn.
  intros [= Hold]. destruct (p_writable p) eqn:Hw; cbn; [|by split; [left|]].
  split.
  - right. rewrite list_lookup_insert_eq by (by eapply lookup_lt_Some).
    cbn. by rewrite lookup_insert_eq.
  - intros ->. rewrite insert_id.
    + destruct obj; cbn. rewrite list_insert_id by done. apply with_heap_same.
    + rewrite Hp. f_equal. destruct p; cbn in *. by subst.
Qed.

(** ** The body normalizer *)

Lemma classic_object (v : Value) :
  (exists l, v = VObject l) \/ (forall l, v <> VObject l).
Proof. destruct v; (by right) || (left; eauto). Qed.

Lemma parseBody_object (args : list Value) (index : Z) (reqObj : loc) (st : State) :
  arg_at args index = Some (VObject reqObj) ->
  parseBody args index st =
    match sobek.Get (heap st) reqObj "body" with
    | None | Some VUndefined => (st, Ok tt)
    | Some bodyVal =>
        match sobek.Export (heap st) bodyVal with
        | GoString body =>
            (fst (sobek.Set_ reqObj "body" (VString body) st), Ok tt)
        | _ => (st, Ok tt)
        end
    end.
Proof.
  intros Harg. unfold parseBody. rewrite Harg. run.
  destruct (sobek.Get (heap st) reqObj "body") as [bodyVal|]; [|reflexivity].
  assert (Hset : forall body,
    (sobek.Set_ reqObj "body" (VString body) ≫= λ _ : option Error, mret ()) st
    = (fst (sobek.Set_ reqObj "body" (VString body) st), Ok tt)).
  { intros body. rewrite run_bind.
    by destruct (Set_outcome reqObj "body" (VString body) st) as [err ->]. }
  destruct bodyVal; try reflexivity;
    destruct (sobek.Export (heap st) _); auto.
Qed.

Lemma parseBody_primitive (args : list Value) (index : Z) (v : Value) (st : State) :
  arg_at args index = Some v -> (forall l, v <> VObject l) ->
  parseBody args index st = (st, Ok tt).
Proof.
  intros Harg Hv. unfold parseBody. rewrite Harg.
  destruct v; try reflexivity. by destruct (Hv l).
Qed.

(** With an argument at [index], [parseBody] returns; it leaves the table,
    the global object and the call log alone and touches no object but the
    one the argument refers to. *)
Lemma parseBody_in_range (args : list Value) (index : Z) (v : Value) (st : State) :
  arg_at args index = Some v ->
  exists st',
    parseBody args index st = (st', Ok tt) /\
    lookup st' = lookup st /\ global st' = global st /\ calls st' = calls st /\
    forall l, v <> VObject l -> heap st' !! l = heap st !! l.
Proof.
  intros Harg.
  assert (Hsame : exists st', (st, Ok tt) = (st', Ok tt) /\
    lookup st' = lookup st /\ global st' = global st /\ calls st' = calls st /\
    forall l, v <> VObject l -> heap st' !! l = heap st !! l) by (by exists st).
  destruct (classic_object v) as [[reqObj ->]|Hv].
  2: { rewrite (parseBody_primitive _ _ _ _ Harg Hv). exact Hsame. }
  rewrite (parseBody_object _ _ _ _ Harg).
  destruct (sobek.Get (heap st) reqObj "body") as [bodyVal|]; [|exact Hsame].
  assert (Hset : forall body, exists st',
    (fst (sobek.Set_ reqObj "body" (VString body) st), Ok tt) = (st', Ok tt) /\
    lookup st' = lookup st /\ global st' = global st /\ calls st' = calls st /\
    forall l, VObject reqObj <> VObject l -> heap st' !! l = heap st !! l).
  { intros body. eexists. split; [reflexivity|].
    destruct (Set_frame reqObj "body" (VString body) st) as (? & ? & ? & _ & Hfr).
    repeat split; try done. intros l Hl. apply Hfr. congruence. }
  destruct bodyVal; try exact Hsame;
    destruct (sobek.Export (heap st) _); auto.
Qed.

(** C5, as the code has it. When there is an argument at [index] and it is
    a primitive or otherwise not an object, [parseBody] returns silently:
    no mutation, no error. When there is no argument at [index],
    [parseBody] itself does not return: indexing the slice panics, and the
    runtime is left as it was. The wrapper does not call it then: a call
    with at most [index] arguments goes through untouched. *)
Theorem parseBody_not_an_object (args : list Value) (index : Z) (st : State) :
  (forall v, arg_at args index = Some v -> (forall l, v <> VObject l) ->
     parseBody args index st = (st, Ok tt)) /\
  (arg_at args index = None ->
     parseBody args index st = (st, Crash "index out of range")) /\
  (Z.of_nat (length args) <= index ->
     intercept index args st = (st, Ok args)).
Proof.
  split; [|split].
  - intros v. apply parseBody_primitive.
  - intros Harg. unfold parseBody. by rewrite Harg.
  - intros Hlen. unfold intercept.
    destruct (Z.gtb_spec (Z.of_nat (length args)) index); [lia | reflexivity].
Qed.

Lemma parseBody_not_an_object_witness :
  parseBody [VInt 1; VString "https://example.com"] 1 sample_state
    = (sample_state, Ok tt) /\
  parseBody [VInt 1] 1 sample_state
    = (sample_state, Crash "index out of range") /\
  intercept 1 [VInt 1] sample_state = (sample_state, Ok [VInt 1]).
Proof.
  split; [|split].
  - apply (proj1 (parseBody_not_an_object
                    [VInt 1; VString "https://example.com"] 1 sample_state)
             (VString "https://example.com")); [reflexivity | discriminate].
  - apply (proj1 (proj2 (parseBody_not_an_object [VInt 1] 1 sample_state))).
    reflexivity.
  - apply (proj2 (proj2 (parseBody_not_an_object [VInt 1] 1 sample_state))).
    vm_compute. discriminate.
Defined.

(** C5 as stated fails: with an index out of range [parseBody] panics
    instead of returning. *)
Lemma parseBody_out_of_range_panics :
  snd (parseBody [] 0 sample_state) <> Ok tt /\
  parseBody [] 0 sample_state = (sample_state, Crash "index out of range").
Proof. split; [discriminate | reflexivity]. Qed.

(** C6. When the request description has no [body] attribute, or its [body]
    is undefined, or its [body] is a structured value that is not a text,
    [parseBody] returns without an error and without any mutation: the
    runtime, and so the stored body, is exactly what it was. *)
Theorem parseBody_body_left_alone (args : list Value) (index : Z)
  (reqObj : loc) (st : State) :
  arg_at args index = Some (VObject reqObj) ->
  sobek.Get (heap st) reqObj "body" = None \/
  sobek.Get (heap st) reqObj "body" = Some VUndefined \/
  (exists bodyVal, sobek.Get (heap st) reqObj "body" = Some bodyVal /\
                   nontext_object (heap st) bodyVal) ->
  parseBody args index st = (st, Ok tt) /\
  sobek.Get (heap (fst (parseBody args index st))) reqObj "body"
  = sobek.Get (heap st) reqObj "body".
Proof.
  intros Harg Hbody.
  assert (Hrun : parseBody args index st = (st, Ok tt)).
  { rewrite (parseBody_object _ _ _ _ Harg).
    destruct Hbody as [-> | [-> | (bodyVal & -> & l & obj & -> & Hobj & Hkind)]];
      try reflexivity.
    cbn. rewrite Hobj. destruct (o_kind obj) eqn:Hk; try reflexivity.
    by destruct (Hkind s). }
  by rewrite Hrun.
Qed.

Lemma parseBody_body_left_alone_witness :
  parseBody [VObject 2] 0 request_state = (request_state, Ok tt) /\
  parseBody [VObject 3] 0 request_state = (request_state, Ok tt) /\
  parseBody [VObject 4] 0 request_state = (request_state, Ok tt).
Proof.
  split; [|split].
  - apply (parseBody_body_left_alone [VObject 2] 0 2%nat request_state);
      [reflexivity | left; reflexivity].
  - apply (parseBody_body_left_alone [VObject 3] 0 3%nat request_state);
      [reflexivity | right; left; reflexivity].
  - apply (parseBody_body_left_alone [VObject 4] 0 4%nat request_state);
      [reflexivity | right; right].
    exists (VObject 0). split; [reflexivity|].
    exists 0%nat, (plain_object []). repeat split. discriminate.
Defined.

(** One application to a text body: it returns, the body is still that
    text, and a body that is a string value leaves the runtime as it was. *)
Lemma parseBody_text_step (args : list Value) (index : Z) (reqObj : loc)
  (s : string) (st : State) :
  arg_at args index = Some (VObject reqObj) ->
  text_body (heap st) reqObj s ->
  exists st',
    parseBody args index st = (st', Ok tt) /\
    text_body (heap st') reqObj s /\
    (sobek.Get (heap st) reqObj "body" = Some (VString s) -> st' = st).
Proof.
  intros Harg (bodyVal & Hget & Hexp).
  rewrite (parseBody_object _ _ _ _ Harg), Hget.
  assert (Hnu : bodyVal <> VUndefined) by (by intros ->).
  destruct (Set_existing reqObj "body" (VString s) bodyVal st Hget)
    as [Hset Hid].
  exists (fst (sobek.Set_ reqObj "body" (VString s) st)).
  split; [|split].
  - destruct bodyVal; try done; by rewrite Hexp.
  - destruct Hset as [-> | Hset]; [by exists bodyVal|].
    by exists (VString s).
  - intros Hprim. apply Hid. congruence.
Qed.



(** C10. When the body attribute holds null, [parseBody] returns silently
    with no mutation and no error: null is neither Go's nil nor undefined,
    and it does not export as a string. *)
Theorem parseBody_null_body (args : list Value) (index : Z) (reqObj : loc)
  (st : State) :
  arg_at args index = Some (VObject reqObj) ->
  sobek.Get (heap st) reqObj "body" = Some VNull ->
  parseBody args index st = (st, Ok tt) /\
  VNull <> VUndefined /\
  (forall s, sobek.Export (heap st) VNull <> GoString s).
Proof.
  intros Harg Hget. split; [|split; [discriminate | discriminate]].
  by rewrite (parseBody_object _ _ _ _ Harg), Hget.
Qed.

Lemma parseBody_null_body_witness :
  parseBody [VObject 5] 0 request_state = (request_state, Ok tt).
Proof.
  apply (parseBody_null_body [VObject 5] 0 5%nat request_state); reflexivity.
Defined.

(** ** The wrapper closure *)

Lemma arg_at_Some (args : list Value) (index : Z) (a : Value) :
  arg_at args index = Some a <->
  0 <= index /\ args !! Z.to_nat index = Some a.
Proof.
  unfold arg_at. destruct (Z.ltb_spec index 0); split.
  - done.
  - intros [? _]. lia.
  - by split.
  - by intros [_ ?].
Qed.

Lemma arg_at_lt (args : list Value) (index : Z) (a : Value) :
  arg_at args index = Some a -> 0 <= index < Z.of_nat (length args).
Proof.
  intros [H0 Hl]%arg_at_Some. apply lookup_lt_Some in Hl. lia.
Qed.

Lemma arg_at_is_Some (args : list Value) (index : Z) :
  0 <= index < Z.of_nat (length args) -> is_Some (arg_at args index).
Proof.
  intros [H0 Hl]. destruct (lookup_lt_is_Some_2 args (Z.to_nat index)) as [a Ha];
    [lia|]. exists a. by apply arg_at_Some.
Qed.

(** A call that is too short for the configured index is not looked at. *)
Lemma intercept_short (index : Z) (args : list Value) (st : State) :
  Z.of_nat (length args) <= index -> intercept index args st = (st, Ok args).
Proof.
  intros Hlen. unfold intercept.
  destruct (Z.gtb_spec (Z.of_nat (length args)) index); [lia | reflexivity].
Qed.

(** A call with an argument at the configured index: that slot is
    rewritten, the object it refers to may get its body re-set, and nothing
    else is touched. *)
Lemma intercept_in_range (index : Z) (args : list Value) (a : Value) (st : State) :
  arg_at args index = Some a ->
  exists st',
    intercept index args st
    = (st', Ok (<[Z.to_nat index := rewrite_value (lookup st) a]> args)) /\
    lookup st' = lookup st /\ global st' = global st /\ calls st' = calls st /\
    forall l, a <> VObject l -> heap st' !! l = heap st !! l.
Proof.
  intros Harg. pose proof (arg_at_lt _ _ _ Harg) as Hlt.
  unfold intercept.
  destruct (Z.gtb_spec (Z.of_nat (length args)) index); [|lia].
  rewrite run_bind, rewrite_run, Harg.
  set (args' := <[Z.to_nat index := rewrite_value (lookup st) a]> args).
  assert (Harg' : arg_at args' index = Some (rewrite_value (lookup st) a)).
  { apply arg_at_Some. split; [lia|].
    apply list_lookup_insert_eq. lia. }
  destruct (parseBody_in_range args' index _ st Harg')
    as (st' & Hrun & Hl & Hg & Hc & Hfr).
  exists st'. rewrite run_bind, Hrun, run_ret. repeat split; try done.
  intros l Hl'. apply Hfr. intros Heq. apply Hl'.
  by apply rewrite_value_object in Heq.
Qed.

Lemma intercept_total (index : Z) (args : list Value) (st : State) :
  0 <= index ->
  exists st' args',
    intercept index args st = (st', Ok args') /\ global st' = global st.
Proof.
  intros H0. destruct (Z.le_gt_cases (Z.of_nat (length args)) index) as [Hs|Hl].
  - exists st, args. split; [by apply intercept_short | done].
  - destruct (arg_at_is_Some args index) as [a Ha]; [lia|].
    destruct (intercept_in_range index args a st Ha) as (st' & Hrun & _ & Hg & _).
    eauto.
Qed.

Lemma wrapper_run (body : Value -> list Value -> M Value) (index : Z)
  (args : list Value) (st : State) :
  wrapper (as_callable body) index args st =
    match intercept index args st with
    | (st', Ok args') => body (VObject (global st')) args' st'
    | (st', Throw e) => (st', Throw e)
    | (st', Crash msg) => (st', Crash msg)
    end.
Proof.
  unfold wrapper. rewrite run_bind. fold (intercept index args).
  destruct (intercept index args st) as [st' [args'| |]]; try reflexivity.
  rewrite run_bind. unfold sobek.GlobalObject. rewrite run_bind.
  unfold as_callable.
  by destruct (body (VObject (global st')) args' st') as [st'' [v| |]].
Qed.

Section Calls.

Variable host : nat -> Value -> list Value -> list Object
                -> list Object * Outcome Value.

(** Once the arguments are prepared, calling the closure is calling the
    callable it captured, on the global object. *)
Lemma invoke_wrapper (callable : Func) (index : Z) (this : Value)
  (args args' : list Value) (st st' : State) :
  intercept index args st = (st', Ok args') ->
  invoke host (Wrapper callable index) this args st
  = invoke host callable (VObject (global st')) args' st'.
Proof.
  intros Hrun. cbn [invoke]. by rewrite wrapper_run, Hrun.
Qed.

Lemma invoke_native_calls (id : nat) (this : Value) (args : list Value)
  (st : State) :
  calls (fst (invoke host (Native id) this args st))
  = (calls st ++ [(id, this, args)])%list.
Proof.
  cbn [invoke]. unfold call_host.
  by destruct (host id this args (heap st)).
Qed.

(** C3. A call that carries at most [index] arguments is neither rewritten
    nor normalized (the runtime and the arguments are what they were), and
    the original callable is still invoked, on the global object, with
    exactly the original short argument list. *)
Theorem wrapper_short_call (callable : Func) (index : Z) (this : Value)
  (args : list Value) (st : State) :
  Z.of_nat (length args) <= index ->
  intercept index args st = (st, Ok args) /\
  invoke host (Wrapper callable index) this args st
  = invoke host callable (VObject (global st)) args st /\
  (forall id, callable = Native id ->
     calls (fst (invoke host (Wrapper callable index) this args st))
     = (calls st ++ [(id, VObject (global st), args)])%list).
Proof.
  intros Hlen. pose proof (intercept_short index args st Hlen) as Hrun.
  split; [done|]. split.
  - by apply invoke_wrapper.
  - intros id ->. rewrite (invoke_wrapper _ _ _ _ _ _ _ Hrun).
    apply invoke_native_calls.
Qed.

(** C8. Once the arguments are prepared, a failure of the original
    callable is the failure of the wrapped call, with the same content,
    and a value returned by the original callable is the value of the
    wrapped call; the runtime is left as the original callable left it,
    and a host function is called exactly once. *)
Theorem wrapper_propagates (callable : Func) (index : Z) (this : Value)
  (args args' : list Value) (st st1 : State) :
  intercept index args st = (st1, Ok args') ->
  (forall st2 e,
     invoke host callable (VObject (global st1)) args' st1 = (st2, Throw e) ->
     invoke host (Wrapper callable index) this args st = (st2, Throw e)) /\
  (forall st2 v,
     invoke host callable (VObject (global st1)) args' st1 = (st2, Ok v) ->
     invoke host (Wrapper callable index) this args st = (st2, Ok v)) /\
  (forall id, callable = Native id ->
     calls (fst (invoke host (Wrapper callable index) this args st))
     = (calls st1 ++ [(id, VObject (global st1), args')])%list).
Proof.
  intros Hrun. rewrite (invoke_wrapper _ _ _ _ _ _ _ Hrun).
  split; [done|]. split; [done|].
  intros id ->. apply invoke_native_calls.
Qed.


End Calls.

Lemma wrapper_short_call_witness :
  invoke sample_host (Wrapper (Native 0) 1) VUndefined [VString "GET"] sample_state
  = invoke sample_host (Native 0) (VObject 0) [VString "GET"] sample_state.
Proof.
  apply (wrapper_short_call sample_host (Native 0) 1 VUndefined
           [VString "GET"] sample_state).
  vm_compute. discriminate.
Defined.

Lemma wrapper_propagates_witness :
  invoke sample_host (Wrapper (Native 1) 0) VUndefined
    [VString "https://example.com"] sample_state
  = (log_call sample_state
       (1%nat, VObject 0, [VString "https://example.net"]),
     Throw (Raised (VString "https://example.net"))).
Proof.
  apply (proj1 (wrapper_propagates sample_host (Native 1) 0 VUndefined
                  [VString "https://example.com"]
                  [VString "https://example.net"]
                  sample_state sample_state eq_refl)).
  reflexivity.
Defined.


(** ** Installing a wrapper *)

Lemma Get_unfold (h : list Object) (o : loc) (name : string) (obj : Object) :
  h !! o = Some obj ->
  sobek.Get h o name = p_value <$> o_props obj !! name.
Proof.
  intros Ho. unfold sobek.Get. rewrite Ho. cbn.
  by destruct (o_props obj !! name).
Qed.

Lemma wrap_not_callable (this : loc) (method : string) (index : Z) (st : State) :
  sobek.AssertFunction (heap st) (sobek.Get (heap st) this method) = None ->
  wrap this method index st
  = (st, Throw (InvalidArg (method +:+ " must be callable"))).
Proof. intros Hf. unfold wrap. run. by rewrite Hf. Qed.

Lemma wrap_callable_run (this : loc) (method : string) (index : Z) (st : State)
  (callable : Func) :
  sobek.AssertFunction (heap st) (sobek.Get (heap st) this method) = Some callable ->
  wrap this method index st =
    match sobek.Set_ this method (VObject (length (heap st)))
            (with_heap st (heap st ++
               [ {| o_props := ∅; o_extensible := true;
                    o_kind := KFunction (Wrapper callable index) |} ])) with
    | (st', Ok (Some e)) => (st', Throw e)
    | (st', Ok None) => (st', Ok tt)
    | (st', Throw e) => (st', Throw e)
    | (st', Crash msg) => (st', Crash msg)
    end.
Proof.
  intros Hf. unfold wrap. run. rewrite Hf. run.
  unfold sobek.ToValue_func. run.
  destruct (sobek.Set_ _ _ _ _) as [st' [[e|]| |]]; reflexivity.
Qed.

Lemma wrap_run_ok (this : loc) (method : string) (index : Z) (st : State)
  (obj : Object) (f : Func) :
  heap st !! this = Some obj ->
  wrappable (heap st) obj method f ->
  wrap this method index st = (after_wrap st this method index obj f, Ok tt).
Proof.
  intros Hobj (p & Hp & Hw & Hf).
  rewrite (wrap_callable_run this method index st f).
  2: { by rewrite (Get_unfold _ _ _ _ Hobj), Hp. }
  unfold sobek.Set_. cbn [heap with_heap].
  rewrite (lookup_app_l_Some _ _ _ _ Hobj).
  unfold sobek.assign. by rewrite Hp, Hw.
Qed.

(** A read-only attribute: the assignment is rejected and [wrap] raises
    that rejection. *)
Lemma wrap_run_rejected (this : loc) (method : string) (index : Z) (st : State)
  (obj : Object) (p : Property) (f : Func) :
  heap st !! this = Some obj ->
  o_props obj !! method = Some p ->
  p_writable p = false ->
  sobek.AssertFunction (heap st) (Some (p_value p)) = Some f ->
  exists st',
    wrap this method index st
    = (st', Throw (TypeError ("Cannot assign to read only property '" +:+ method +:+ "'"))).
Proof.
  intros Hobj Hp Hw Hf.
  rewrite (wrap_callable_run this method index st f).
  2: { by rewrite (Get_unfold _ _ _ _ Hobj), Hp. }
  unfold sobek.Set_. cbn [heap with_heap].
  rewrite (lookup_app_l_Some _ _ _ _ Hobj).
  unfold sobek.assign. rewrite Hp, Hw. eauto.
Qed.

(** What [after_wrap] looks like. *)
Lemma after_wrap_target (st : State) (this : loc) (method : string) (index : Z)
  (obj : Object) (f : Func) :
  heap st !! this = Some obj ->
  exists obj',
    heap (after_wrap st this method index obj f) !! this = Some obj' /\
    o_kind obj' = o_kind obj /\
    o_props obj' !! method
    = Some {| p_value := VObject (length (heap st)); p_writable := true |} /\
    forall m, m <> method -> o_props obj' !! m = o_props obj !! m.
Proof.
  intros Hobj. pose proof (lookup_lt_Some _ _ _ Hobj) as Hlt.
  eexists. split.
  - cbn. apply list_lookup_insert_eq. rewrite length_app. cbn. lia.
  - cbn. split; [done|]. split; [apply lookup_insert_eq|].
    intros m Hm. by apply lookup_insert_ne.
Qed.

Lemma after_wrap_closure (st : State) (this : loc) (method : string) (index : Z)
  (obj : Object) (f : Func) :
  heap st !! this = Some obj ->
  sobek.AssertFunction (heap (after_wrap st this method index obj f))
    (Some (VObject (length (heap st))))
  = Some (Wrapper f index).
Proof.
  intros Hobj. pose proof (lookup_lt_Some _ _ _ Hobj) as Hlt.
  cbn. rewrite list_lookup_insert_ne by lia.
  by rewrite list_lookup_middle.
Qed.

Lemma after_wrap_kept (st : State) (this : loc) (method : string) (index : Z)
  (obj : Object) (f : Func) :
  heap st !! this = Some obj ->
  callables_kept (heap st) (heap (after_wrap st this method index obj f)).
Proof.
  intros Hobj v g. destruct v as [| | | | |l]; try done. cbn.
  destruct (heap st !! l) as [o|] eqn:Hl; [|done].
  destruct (decide (l = this)) as [->|Hne].
  - rewrite list_lookup_insert_eq
      by (rewrite length_app; apply lookup_lt_Some in Hobj; cbn; lia).
    cbn. by replace o with obj by congruence.
  - rewrite list_lookup_insert_ne by done.
    by rewrite (lookup_app_l_Some _ _ _ _ Hl).
Qed.

Lemma after_wrap_wrapped (st : State) (this : loc) (method : string) (index : Z)
  (obj : Object) (f : Func) :
  heap st !! this = Some obj ->
  wrapped (after_wrap st this method index obj f) this method f index.
Proof.
  intros Hobj.
  destruct (after_wrap_target st this method index obj f Hobj)
    as (obj' & Hobj' & _ & Hm & _).
  unfold wrapped. rewrite (Get_unfold _ _ _ _ Hobj'), Hm. cbn [fmap option_fmap option_map p_value].
  by apply after_wrap_closure.
Qed.




(** ** Wrapping the exports *)

Lemma callables_kept_trans (h1 h2 h3 : list Object) :
  callables_kept h1 h2 -> callables_kept h2 h3 -> callables_kept h1 h3.
Proof. intros H12 H23 v g Hv. auto. Qed.

Lemma wrappable_functional (h : list Object) (obj : Object) (m : string)
  (f g : Func) :
  wrappable h obj m f -> wrappable h obj m g -> f = g.
Proof. intros (p & Hp & _ & Hf) (q & Hq & _ & Hg). congruence. Qed.

(** One loop of [wrapHTTPExports]: when every name of the slice is a
    function of the object that accepts an assignment, the loop completes;
    afterwards every name of the slice is the closure around its function,
    with the index of the loop, and the other attributes are as before. *)
Lemma for_range_wrap (defaults : loc) (index : Z) (names : list string) :
  NoDup names ->
  forall (st : State) (obj : Object),
    heap st !! defaults = Some obj ->
    Forall (fun m => exists f, wrappable (heap st) obj m f) names ->
    exists st' obj',
      for_range names (fun method => wrap defaults method index) st = (st', Ok tt) /\
      heap st' !! defaults = Some obj' /\
      callables_kept (heap st) (heap st') /\
      (forall m, m ∉ names -> o_props obj' !! m = o_props obj !! m) /\
      (forall m f, m ∈ names -> wrappable (heap st) obj m f ->
         wrapped st' defaults m f index).
Proof.
  induction 1 as [|m ns Hm Hns IH]; intros st obj Hobj Hall.
  - exists st, obj. split; [done|]. split; [done|].
    split; [by intros v g|]. split; [done|].
    intros m f Hin. by apply not_elem_of_nil in Hin.
  - apply Forall_cons in Hall as [[f Hf] Hall].
    set (st1 := after_wrap st defaults m index obj f).
    destruct (after_wrap_target st defaults m index obj f Hobj)
      as (obj1 & Hobj1 & _ & Hm1 & Hother1).
    pose proof (after_wrap_kept st defaults m index obj f Hobj) as Hkept1.
    fold st1 in Hobj1, Hkept1.
    assert (Hall1 : Forall (fun m' => exists f', wrappable (heap st1) obj1 m' f') ns).
    { rewrite Forall_forall in Hall |- *. intros m' Hin.
      destruct (Hall m' Hin) as (f' & p & Hp & Hw & Hf').
      exists f', p. rewrite Hother1 by (intros ->; done).
      split; [done|]. split; [done|]. by apply Hkept1. }
    destruct (IH st1 obj1 Hobj1 Hall1)
      as (st' & obj' & Hrun & Hobj' & Hkept & Hother & Hwrapped).
    exists st', obj'. split; [|split; [|split; [|split]]].
    + cbn [for_range]. rewrite run_bind.
      rewrite (wrap_run_ok defaults m index st obj f Hobj Hf). exact Hrun.
    + exact Hobj'.
    + by eapply callables_kept_trans.
    + intros m' Hm'. apply not_elem_of_cons in Hm' as [Hne Hm'].
      rewrite Hother by done. by apply Hother1.
    + intros m' f' Hin Hf'. apply elem_of_cons in Hin as [-> | Hin].
      * rewrite (wrappable_functional _ _ _ _ _ Hf' Hf).
        unfold wrapped. rewrite (Get_unfold _ _ _ _ Hobj'), (Hother m Hm), Hm1.
        cbn [fmap option_fmap option_map p_value].
        apply Hkept. by apply after_wrap_closure.
      * apply Hwrapped; [done|].
        destruct Hf' as (p & Hp & Hw & Hf').
        exists p. rewrite Hother1 by (intros ->; done).
        split; [done|]. split; [done|]. by apply Hkept1.
Qed.

(** C4, as the code has it. [wrapHTTPExports] wraps exactly the attributes
    get, head, post, put, patch, options and del with index 0 and exactly
    the attributes request and asyncRequest with index 1: on an exports
    object where these nine are functions that accept an assignment, it
    completes, each of them is then the closure around its function with
    that index, and every other attribute is what it was. *)
Theorem wrapHTTPExports_registers (defaults : loc) (st : State) (obj : Object) :
  heap st !! defaults = Some obj ->
  Forall (fun m => exists f, wrappable (heap st) obj m f)
    (urlFirstMethods ++ urlSecondMethods) ->
  urlFirstMethods = ["get"; "head"; "post"; "put"; "patch"; "options"; "del"] /\
  urlSecondMethods = ["request"; "asyncRequest"] /\
  exists st',
    wrapHTTPExports defaults st = (st', Ok tt) /\
    (forall m f, m ∈ urlFirstMethods -> wrappable (heap st) obj m f ->
       wrapped st' defaults m f 0) /\
    (forall m f, m ∈ urlSecondMethods -> wrappable (heap st) obj m f ->
       wrapped st' defaults m f 1) /\
    (forall m, m ∉ (urlFirstMethods ++ urlSecondMethods)%list ->
       sobek.Get (heap st') defaults m = sobek.Get (heap st) defaults m /\
       forall g,
         sobek.AssertFunction (heap st) (sobek.Get (heap st) defaults m) = Some g ->
         sobek.AssertFunction (heap st') (sobek.Get (heap st') defaults m) = Some g).
Proof.
  intros Hobj Hall. split; [reflexivity|]. split; [reflexivity|].
  apply Forall_app in Hall as [Hall1 Hall2].
  assert (Hnd : NoDup (urlFirstMethods ++ urlSecondMethods))
    by (apply (bool_decide_unpack _); by vm_compute).
  apply NoDup_app in Hnd as (Hnd1 & Hdisj & Hnd2).
  destruct (for_range_wrap defaults 0 urlFirstMethods Hnd1 st obj Hobj Hall1)
    as (st1 & obj1 & Hrun1 & Hobj1 & Hkept1 & Hother1 & Hwrapped1).
  assert (Hall2' : Forall (fun m => exists f, wrappable (heap st1) obj1 m f)
                     urlSecondMethods).
  { rewrite Forall_forall in Hall2 |- *. intros m Hin.
    destruct (Hall2 m Hin) as (f & p & Hp & Hw & Hf).
    exists f, p. rewrite Hother1 by (intros Hin1; by apply (Hdisj m)).
    split; [done|]. split; [done|]. by apply Hkept1. }
  destruct (for_range_wrap defaults 1 urlSecondMethods Hnd2 st1 obj1 Hobj1 Hall2')
    as (st' & obj' & Hrun2 & Hobj' & Hkept2 & Hother2 & Hwrapped2).
  exists st'. split; [|split; [|split]].
  - unfold wrapHTTPExports. by rewrite run_bind, Hrun1.
  - intros m f Hin Hf. specialize (Hwrapped1 m f Hin Hf).
    unfold wrapped in *.
    rewrite (Get_unfold _ _ _ _ Hobj'), (Hother2 m (Hdisj m Hin)).
    rewrite (Get_unfold _ _ _ _ Hobj1) in Hwrapped1.
    destruct (o_props obj1 !! m) as [p|]; [|done]. by apply Hkept2.
  - intros m f Hin Hf. apply Hwrapped2; [done|].
    destruct Hf as (p & Hp & Hw & Hf).
    exists p. rewrite Hother1 by (intros Hin1; by apply (Hdisj m)).
    split; [done|]. split; [done|]. by apply Hkept1.
  - intros m Hm. apply not_elem_of_app in Hm as [Hm1 Hm2].
    assert (Hget : sobek.Get (heap st') defaults m = sobek.Get (heap st) defaults m).
    { rewrite (Get_unfold _ _ _ _ Hobj'), (Get_unfold _ _ _ _ Hobj).
      by rewrite Hother2, Hother1. }
    split; [done|]. intros g. rewrite Hget.
    destruct (sobek.Get (heap st) defaults m) as [v|]; [|done].
    intros Hg. by apply Hkept2, Hkept1.
Qed.

Lemma wrapHTTPExports_registers_witness :
  exists st',
    wrapHTTPExports 1 (exports_state (urlFirstMethods ++ urlSecondMethods))
    = (st', Ok tt) /\
    wrapped st' 1 "del" (Native 6) 0 /\
    wrapped st' 1 "asyncRequest" (Native 8) 1.
Proof.
  destruct (wrapHTTPExports_registers 1%nat
              (exports_state (urlFirstMethods ++ urlSecondMethods))
              (plain_object (imap (fun i name => (name, VObject (2 + i)))
                               (urlFirstMethods ++ urlSecondMethods))))
    as (_ & _ & st' & Hrun & Hfirst & Hsecond & _).
  - reflexivity.
  - repeat (apply Forall_cons; split;
            [eexists; eexists; split; [reflexivity | split; reflexivity] |]).
    apply Forall_nil. exact I.
  - exists st'. split; [exact Hrun|]. split.
    + apply Hfirst.
      * apply (bool_decide_unpack _). vm_compute. exact I.
      * eexists. split; [reflexivity | split; reflexivity].
    + apply Hsecond.
      * apply (bool_decide_unpack _). vm_compute. exact I.
      * eexists. split; [reflexivity | split; reflexivity].
Defined.

(** C4 as stated fails: there is no attribute named delete among the
    wrapped ones. On exports that have both del and delete, del is wrapped
    and delete is left as the host function it was; on exports that have
    the names of the claim (delete, and no del), [wrapHTTPExports] raises
    the setup failure for del. *)
Lemma wrapHTTPExports_leaves_delete :
("delete" ∉ (urlFirstMethods ++ urlSecondMethods)%list) /\
  (let r := wrapHTTPExports 1
              (exports_state (urlFirstMethods ++ urlSecondMethods ++ ["delete"])) in
   snd r = Ok tt /\
   sobek.AssertFunction (heap (fst r)) (sobek.Get (heap (fst r)) 1 "delete")
   = Some (Native 9) /\
   wrapped (fst r) 1 "del" (Native 6) 0) /\
  snd (wrapHTTPExports 1
         (exports_state ["get"; "head"; "post"; "put"; "patch"; "options";
                         "delete"; "request"; "asyncRequest"]))
  = Throw (InvalidArg "del must be callable").
Proof.
  split; [|split; [|by vm_compute]].
  - apply (bool_decide_unpack _). by vm_compute.
  - by vm_compute.
Qed.

(** ** The tests of http_test.go, replayed on the model *)

(** TestModuleWrap: wrapping [not_a_func] panics; after wrapping [method]
    at index 0, a call with https://example.com reaches the original
    function with https://example.net. *)
Example TestModuleWrap :
  snd (wrap 1 "not_a_func" 1 sample_state)
  = Throw (InvalidArg "not_a_func must be callable") /\
  (let r := (_ ← wrap 1 "method" 0;
             call_attribute sample_host 1 "method" VUndefined
               [VString "https://example.com"]) sample_state in
   snd r = Ok VUndefined /\
   calls (fst r) = [(0%nat, VObject 0, [VString "https://example.net"])]).
Proof. split; [reflexivity | split; reflexivity]. Qed.

(** TestModuleWrapWithFullXMLRequestInfo: three arguments, none of them a
    key of the table, reach the original function as they are. *)
Example TestModuleWrapWithFullXMLRequestInfo :
  let xmlBody := "<person><name>John Doe</name><age>30</age></person>" in
  let r := (_ ← wrap 1 "method" 0;
            call_attribute sample_host 1 "method" VUndefined
              [VString "POST"; VObject 0; VString xmlBody]) sample_state in
  snd r = Ok VUndefined /\
  calls (fst r)
  = [(0%nat, VObject 0, [VString "POST"; VObject 0; VString xmlBody])].
Proof. split; reflexivity. Qed.

(** TestParseBodyWithStringBody, TestParseBodyWhenBodyNotPresent,
    TestParseBodyWithUndefinedBody and TestParseBodyWithNonStringBody: the
    request description is what it was. *)
Example TestParseBody :
  parseBody [VObject 1] 0 request_state = (request_state, Ok tt) /\
  parseBody [VObject 2] 0 request_state = (request_state, Ok tt) /\
  parseBody [VObject 3] 0 request_state = (request_state, Ok tt) /\
  parseBody [VObject 4] 0 request_state = (request_state, Ok tt).
Proof. repeat split; by vm_compute. Qed.

(** * Further properties of the code *)

(** ** What [wrap] changes and what it leaves alone *)

Lemma Set_rejected_unchanged (o : loc) (name : string) (v : Value)
  (st st' : State) (e : Error) :
  sobek.Set_ o name v st = (st', Ok (Some e)) -> st' = st.
Proof.
  unfold sobek.Set_. destruct (heap st !! o) as [obj|].
  - destruct (sobek.assign obj name v); intros ?; by simplify_eq.
  - intros ?; by simplify_eq.
Qed.

Lemma Set_kinds (o : loc) (name : string) (v : Value) (st : State) :
  kinds_kept (heap st) (heap (fst (sobek.Set_ o name v st))).
Proof.
  intros l obj Hl. unfold sobek.Set_, sobek.assign.
  destruct (heap st !! o) as [tgt|] eqn:Ho; [|by exists obj].
  assert (Hins : forall tgt',
    o_kind tgt' = o_kind tgt ->
    exists obj', <[o := tgt']> (heap st) !! l = Some obj' /\
                 o_kind obj' = o_kind obj).
  { intros tgt' Hk. destruct (decide (l = o)) as [->|Hne].
    - exists tgt'. split.
      + apply list_lookup_insert_eq. by eapply lookup_lt_Some.
      + assert (Heq : Some tgt = Some obj)
          by (etrans; [symmetry; exact Ho | exact Hl]).
        injection Heq as ->. exact Hk.
    - exists obj. by rewrite list_lookup_insert_ne. }
  destruct (o_props tgt !! name) as [p|].
  - destruct (p_writable p); [by apply Hins | by exists obj].
  - destruct (o_extensible tgt); [by apply Hins | by exists obj].
Qed.

(** A successful [wrap] is the step [after_wrap] from an attribute that was
    a function and accepted the assignment. *)
Lemma wrap_ok_inv (this : loc) (method : string) (index : Z) (st st' : State) :
  wrap this method index st = (st', Ok tt) ->
  exists obj f,
    heap st !! this = Some obj /\
    wrappable (heap st) obj method f /\
    st' = after_wrap st this method index obj f.
Proof.
  intros Hrun.
  destruct (sobek.AssertFunction (heap st) (sobek.Get (heap st) this method))
    as [f|] eqn:Hf.
  2: { by rewrite (wrap_not_callable _ _ _ _ Hf) in Hrun. }
  destruct (heap st !! this) as [obj|] eqn:Hobj.
  2: { unfold sobek.Get in Hf. by rewrite Hobj in Hf. }
  rewrite (Get_unfold _ _ _ _ Hobj) in Hf.
  destruct (o_props obj !! method) as [p|] eqn:Hp; [|done]. cbn in Hf.
  rewrite (wrap_callable_run this method index st f) in Hrun
    by (by rewrite (Get_unfold _ _ _ _ Hobj), Hp).
  unfold sobek.Set_ in Hrun. cbn [heap with_heap] in Hrun.
  rewrite (lookup_app_l_Some _ _ _ _ Hobj) in Hrun.
  unfold sobek.assign in Hrun. rewrite Hp in Hrun.
  destruct (p_writable p) eqn:Hw; [|done].
  exists obj, f. split; [done|]. split; [by exists p|].
  by injection Hrun as <-.
Qed.

(** X1. A successful [wrap] allocates exactly one object, replaces the one
    attribute, and leaves alone: every other object, every other attribute
    of the target (value and writability), the kind and extensibility of
    the target, the table, the global object and the call log; every value
    that was a function is still that function. *)
Theorem wrap_success_frame (this : loc) (method : string) (index : Z)
  (st st' : State) :
  wrap this method index st = (st', Ok tt) ->
  length (heap st') = S (length (heap st)) /\
  (forall l, l <> this -> (l < length (heap st))%nat ->
     heap st' !! l = heap st !! l) /\
  (exists obj obj',
     heap st !! this = Some obj /\ heap st' !! this = Some obj' /\
     o_kind obj' = o_kind obj /\ o_extensible obj' = o_extensible obj /\
     forall m, m <> method -> o_props obj' !! m = o_props obj !! m) /\
  lookup st' = lookup st /\ global st' = global st /\ calls st' = calls st /\
  callables_kept (heap st) (heap st').
Proof.
  intros Hrun. destruct (wrap_ok_inv _ _ _ _ _ Hrun) as (obj & f & Hobj & _ & ->).
  pose proof (lookup_lt_Some _ _ _ Hobj) as Hlt.
  split; [|split; [|split; [|split; [|split; [|split]]]]]; try reflexivity.
  - cbn. rewrite length_insert, length_app. cbn. lia.
  - intros l Hne Hl. cbn. rewrite list_lookup_insert_ne by done.
    apply lookup_app_l. done.
  - exists obj. eexists. split; [done|]. split.
    + cbn. apply list_lookup_insert_eq. rewrite length_app. cbn. lia.
    + cbn. split; [done|]. split; [done|].
      intros m Hm. by apply lookup_insert_ne.
  - by apply after_wrap_kept.
Qed.

Lemma wrap_success_frame_witness :
  let st' := fst (wrap 1 "method" 0 sample_state) in
  length (heap st') = 4%nat /\
  heap st' !! 2%nat = Some (function_object (Native 0)) /\
  calls st' = [].
Proof.
  destruct (wrap_success_frame 1%nat "method" 0 sample_state
              (fst (wrap 1 "method" 0 sample_state)) eq_refl)
    as (Hlen & Hother & _ & _ & _ & Hcalls & _).
  split; [exact Hlen|]. split; [|exact Hcalls].
  apply (Hother 2%nat); [discriminate | vm_compute; lia].
Defined.

(** The heap that a [wrap] that raises leaves: the heap it found, with at
    most the closure it had prepared appended. *)
Lemma wrap_raises_heap (this : loc) (method : string) (index : Z)
  (st st' : State) (e : Error) :
  wrap this method index st = (st', Throw e) ->
  exists extra,
    heap st' = (heap st ++ extra)%list /\ (length extra <= 1)%nat /\
    lookup st' = lookup st /\ global st' = global st /\ calls st' = calls st.
Proof.
  intros Hrun.
  destruct (sobek.AssertFunction (heap st) (sobek.Get (heap st) this method))
    as [f|] eqn:Hf.
  2: { rewrite (wrap_not_callable _ _ _ _ Hf) in Hrun. injection Hrun as <- _.
       exists []. rewrite app_nil_r. repeat split; (done || cbn; lia). }
  rewrite (wrap_callable_run this method index st f Hf) in Hrun.
  match type of Hrun with
  | context [sobek.Set_ ?o ?n ?v ?s] =>
      destruct (Set_outcome o n v s) as [err Hset]
  end.
  rewrite Hset in Hrun. destruct err as [e'|]; [|done].
  injection Hrun as <- _. apply Set_rejected_unchanged in Hset. rewrite Hset.
  eexists [_]. cbn. repeat split; lia.
Qed.

(** X2. A [wrap] that raises has changed no object that existed, nor the
    table, the global object or the call log; at most the closure it had
    prepared is left behind as a new object. *)
Theorem wrap_failure_frame (this : loc) (method : string) (index : Z)
  (st st' : State) (e : Error) :
  wrap this method index st = (st', Throw e) ->
  (forall l, (l < length (heap st))%nat -> heap st' !! l = heap st !! l) /\
  (length (heap st) <= length (heap st') <= S (length (heap st)))%nat /\
  lookup st' = lookup st /\ global st' = global st /\ calls st' = calls st.
Proof.
  intros Hrun.
  destruct (wrap_raises_heap _ _ _ _ _ _ Hrun)
    as (extra & Hheap & Hlen & Hl & Hg & Hc).
  rewrite Hheap, length_app.
  split; [|repeat split; (done || lia)].
  intros l Hlt. by apply lookup_app_l.
Qed.

Lemma wrap_failure_frame_witness :
  heap (fst (wrap 1 "method" 0 frozen_state)) !! 1%nat
  = heap frozen_state !! 1%nat /\
  calls (fst (wrap 1 "method" 0 frozen_state)) = [].
Proof.
  destruct (wrap_failure_frame 1%nat "method" 0 frozen_state
              (fst (wrap 1 "method" 0 frozen_state))
              (TypeError "Cannot assign to read only property 'method'")
              eq_refl)
    as (Hsame & _ & _ & _ & Hcalls).
  split; [|exact Hcalls].
  apply (Hsame 1%nat). vm_compute. lia.
Defined.

(** ** What [parseBody] changes and what it leaves alone *)

Lemma Set_attrs (o : loc) (name : string) (v : Value) (st : State)
  (l : loc) (obj : Object) :
  heap st !! l = Some obj ->
  exists obj',
    heap (fst (sobek.Set_ o name v st)) !! l = Some obj' /\
    forall n, l <> o \/ n <> name -> o_props obj' !! n = o_props obj !! n.
Proof.
  intros Hl. unfold sobek.Set_, sobek.assign.
  destruct (heap st !! o) as [tgt|] eqn:Ho; [|by exists obj].
  assert (Hins : forall tgt',
    (forall n, n <> name -> o_props tgt' !! n = o_props tgt !! n) ->
    exists obj', <[o := tgt']> (heap st) !! l = Some obj' /\
      forall n, l <> o \/ n <> name -> o_props obj' !! n = o_props obj !! n).
  { intros tgt' Hp. destruct (decide (l = o)) as [Heq|Hne].
    - exists tgt'. subst l. split.
      + apply list_lookup_insert_eq. by eapply lookup_lt_Some.
      + assert (Heq : Some tgt = Some obj)
          by (etrans; [symmetry; exact Ho | exact Hl]).
        injection Heq as <-. intros n [Hn|Hn]; [done | by apply Hp].
    - exists obj. by rewrite list_lookup_insert_ne. }
  destruct (o_props tgt !! name) as [p|].
  - destruct (p_writable p); [|by exists obj].
    apply Hins. intros n Hn. cbn. by apply lookup_insert_ne.
  - destruct (o_extensible tgt); [|by exists obj].
    apply Hins. intros n Hn. cbn. by apply lookup_insert_ne.
Qed.

Lemma Get_missing (h : list Object) (o : loc) (name : string) :
  h !! o = None -> sobek.Get h o name = None.
Proof. intros Ho. unfold sobek.Get. by rewrite Ho. Qed.

Lemma Get_frame_of_Set (o : loc) (name : string) (v : Value) (st : State)
  (l : loc) (n : string) :
  l <> o \/ n <> name ->
  sobek.Get (heap (fst (sobek.Set_ o name v st))) l n = sobek.Get (heap st) l n.
Proof.
  intros Hne. destruct (heap st !! l) as [obj|] eqn:Hl.
  - destruct (Set_attrs o name v st l obj Hl) as (obj' & Hl' & Hp).
    by rewrite (Get_unfold _ _ _ _ Hl'), (Get_unfold _ _ _ _ Hl), Hp.
  - destruct (Set_frame o name v st) as (_ & _ & _ & Hlen & _).
    rewrite (Get_missing (heap st) l n Hl). apply Get_missing.
    apply lookup_ge_None. rewrite Hlen. by apply lookup_ge_None.
Qed.

(** The state that [parseBody] leaves is the one it found, or the one after
    its assignment of the text of [body] to [body]. *)
Lemma parseBody_state (args : list Value) (index : Z) (st : State) :
  fst (parseBody args index st) = st \/
  exists reqObj bodyVal s,
    arg_at args index = Some (VObject reqObj) /\
    sobek.Get (heap st) reqObj "body" = Some bodyVal /\
    sobek.Export (heap st) bodyVal = GoString s /\
    fst (parseBody args index st)
    = fst (sobek.Set_ reqObj "body" (VString s) st).
Proof.
  destruct (arg_at args index) as [v|] eqn:Harg.
  2: { left. unfold parseBody. by rewrite Harg. }
  destruct (classic_object v) as [[reqObj ->]|Hv].
  2: { left. by rewrite (parseBody_primitive _ _ _ _ Harg Hv). }
  rewrite (parseBody_object _ _ _ _ Harg).
  destruct (sobek.Get (heap st) reqObj "body") as [bodyVal|] eqn:Hget;
    [|by left].
  destruct bodyVal; try (by left);
    destruct (sobek.Export (heap st) _) eqn:Hexp; try (by left);
    right; eexists _, _, _; eauto.
Qed.





(** X5. A [body] attribute that is read-only is left as it is, and the
    rejection of the assignment is not reported: [parseBody] returns
    normally and the runtime is unchanged. *)
Theorem parseBody_read_only_body (args : list Value) (index : Z)
  (reqObj : loc) (obj : Object) (p : Property) (st : State) :
  arg_at args index = Some (VObject reqObj) ->
  heap st !! reqObj = Some obj ->
  o_props obj !! "body" = Some p ->
  p_writable p = false ->
  parseBody args index st = (st, Ok tt).
Proof.
  intros Harg Hobj Hp Hw.
  destruct (parseBody_in_range args index _ st Harg) as (st' & Hrun & _).
  rewrite Hrun. f_equal.
  destruct (parseBody_state args index st)
    as [Hst | (r & bodyVal & s & Harg' & _ & _ & Hst)];
    rewrite Hrun in Hst; cbn in Hst; [done|].
  rewrite Harg in Harg'. injection Harg' as <-.
  rewrite Hst. unfold sobek.Set_, sobek.assign.
  assert (Hobj' : heap st !! reqObj = Some obj) by exact Hobj.
  by rewrite Hobj', Hp, Hw.
Qed.

Lemma parseBody_read_only_body_witness :
  parseBody [VObject 2] 0 frozen_request_state = (frozen_request_state, Ok tt).
Proof.
  apply (parseBody_read_only_body [VObject 2] 0 2%nat
           (frozen_object [("body", VObject 3)])
           {| p_value := VObject 3; p_writable := false |});
    reflexivity.
Defined.


(** ** Calls through the closure *)

Lemma intercept_nonneg (index : Z) (args : list Value) (st : State) :
  0 <= index ->
  exists st' args',
    intercept index args st = (st', Ok args') /\
    global st' = global st /\ calls st' = calls st /\
    length args' = length args /\
    forall j, j <> Z.to_nat index -> args' !! j = args !! j.
Proof.
  intros H0. destruct (Z.le_gt_cases (Z.of_nat (length args)) index) as [Hs|Hl].
  - exists st, args. by rewrite intercept_short.
  - destruct (arg_at_is_Some args index) as [a Ha]; [lia|].
    destruct (intercept_in_range index args a st Ha)
      as (st' & Hrun & _ & Hg & Hc & _).
    eexists st', _. split; [exact Hrun|]. split; [done|]. split; [done|].
    split; [apply length_insert|].
    intros j Hj. by apply list_lookup_insert_ne.
Qed.

(** X7. A closure built with a negative index panics on every call, before
    the original callable is reached: the guard on the number of arguments
    lets the call through and [parseBody] indexes the slice. The runtime is
    left as it was; in particular no host function has been called. *)
Theorem wrapper_negative_index_panics
  (host : nat -> Value -> list Value -> list Object -> list Object * Outcome Value)
  (callable : Func) (index : Z) (this : Value) (args : list Value) (st : State) :
  index < 0 ->
  invoke host (Wrapper callable index) this args st
  = (st, Crash "index out of range").
Proof.
  intros Hneg. cbn [invoke]. rewrite wrapper_run.
  assert (Harg : forall l, arg_at l index = None).
  { intros l. unfold arg_at. destruct (Z.ltb_spec index 0); [done | lia]. }
  unfold intercept.
  destruct (Z.gtb_spec (Z.of_nat (length args)) index); [|lia].
  rewrite run_bind, rewrite_run, Harg, run_bind.
  unfold parseBody. by rewrite Harg.
Qed.

Lemma wrapper_negative_index_panics_witness :
  invoke sample_host (Wrapper (Native 0) (-1)) VUndefined
    [VString "https://example.com"] sample_state
  = (sample_state, Crash "index out of range").
Proof.
  apply (wrapper_negative_index_panics sample_host (Native 0) (-1) VUndefined
           [VString "https://example.com"] sample_state).
  lia.
Defined.



(** X9. When the argument at the configured index is neither a key of the
    table nor an object, the wrapped call is the call of the original
    callable on the global object with the same arguments in the same
    runtime: the closure is transparent. *)
Theorem wrapper_transparent
  (host : nat -> Value -> list Value -> list Object -> list Object * Outcome Value)
  (callable : Func) (index : Z) (this : Value) (args : list Value) (a : Value)
  (st : State) :
  arg_at args index = Some a ->
  ~ is_key (lookup st) a ->
  (forall l, a <> VObject l) ->
  invoke host (Wrapper callable index) this args st
  = invoke host callable (VObject (global st)) args st.
Proof.
  intros Harg Hkey Hobj. apply invoke_wrapper.
  pose proof (arg_at_lt _ _ _ Harg) as Hlt.
  unfold intercept.
  destruct (Z.gtb_spec (Z.of_nat (length args)) index); [|lia].
  rewrite run_bind, rewrite_run, Harg, (rewrite_value_other _ _ Hkey).
  pose proof (proj2 (proj1 (arg_at_Some _ _ _) Harg)) as Hl.
  rewrite (list_insert_id _ _ _ Hl).
  by rewrite run_bind, (parseBody_primitive args index a st Harg Hobj).
Qed.

Lemma wrapper_transparent_witness :
  invoke sample_host (Wrapper (Native 0) 0) VUndefined
    [VString "<person><name>John Doe</name><age>30</age></person>"] sample_state
  = invoke sample_host (Native 0) (VObject 0)
      [VString "<person><name>John Doe</name><age>30</age></person>"] sample_state.
Proof.
  apply (wrapper_transparent sample_host (Native 0) 0 VUndefined
           [VString "<person><name>John Doe</name><age>30</age></person>"]
           (VString "<person><name>John Doe</name><age>30</age></person>")
           sample_state).
  - reflexivity.
  - intros (K & HK & [r Hr]). injection HK as <-. vm_compute in Hr. discriminate.
  - discriminate.
Defined.

(** X10. When the argument at the configured index is a string that is a
    key of the table, the original callable is called, on the global
    object and in the same runtime, with the replacement in that slot and
    every other argument as it was. *)
Theorem wrapper_rewrites_key
  (host : nat -> Value -> list Value -> list Object -> list Object * Outcome Value)
  (callable : Func) (index : Z) (this : Value) (args : list Value)
  (K r : string) (st : State) :
  arg_at args index = Some (VString K) ->
  lookup st !! K = Some r ->
  invoke host (Wrapper callable index) this args st
  = invoke host callable (VObject (global st))
      (<[Z.to_nat index := VString r]> args) st.
Proof.
  intros Harg HK. apply invoke_wrapper.
  pose proof (arg_at_lt _ _ _ Harg) as Hlt.
  unfold intercept.
  destruct (Z.gtb_spec (Z.of_nat (length args)) index); [|lia].
  rewrite run_bind, rewrite_run, Harg, (rewrite_value_key _ _ _ HK).
  rewrite run_bind.
  rewrite (parseBody_primitive _ index (VString r) st); [done| |done].
  apply arg_at_Some. split; [lia|]. apply list_lookup_insert_eq. lia.
Qed.

Lemma wrapper_rewrites_key_witness :
  invoke sample_host (Wrapper (Native 0) 1) VUndefined
    [VString "GET"; VString "https://example.com"] sample_state
  = invoke sample_host (Native 0) (VObject 0)
      [VString "GET"; VString "https://example.net"] sample_state.
Proof.
  apply (wrapper_rewrites_key sample_host (Native 0) 1 VUndefined
           [VString "GET"; VString "https://example.com"]
           "https://example.com" "https://example.net" sample_state);
    reflexivity.
Defined.

(** ** Setting up the wrappers *)

Lemma setup_step_refl (this : loc) (st : State) : setup_step this st st.
Proof.
  repeat split; try done. intros l obj Hl. by exists obj.
Qed.

Lemma setup_step_trans (this : loc) (st1 st2 st3 : State) :
  setup_step this st1 st2 -> setup_step this st2 st3 -> setup_step this st1 st3.
Proof.
  intros (Hl1 & Hg1 & Hc1 & Hn1 & Hk1 & Hf1) (Hl2 & Hg2 & Hc2 & Hn2 & Hk2 & Hf2).
  split; [congruence|]. split; [congruence|]. split; [congruence|].
  split; [lia|]. split.
  - intros l obj Hobj. destruct (Hk1 l obj Hobj) as (obj2 & Hobj2 & Hkind2).
    destruct (Hk2 l obj2 Hobj2) as (obj3 & Hobj3 & Hkind3).
    exists obj3. split; [done | congruence].
  - intros l Hne Hlt. rewrite Hf2 by (done || lia). by apply Hf1.
Qed.

(** Whatever its outcome, [wrap] is a setup step. *)
Lemma wrap_setup_step (this : loc) (method : string) (index : Z) (st : State) :
  setup_step this st (fst (wrap this method index st)).
Proof.
  destruct (sobek.AssertFunction (heap st) (sobek.Get (heap st) this method))
    as [f|] eqn:Hf.
  2: { rewrite (wrap_not_callable _ _ _ _ Hf). apply setup_step_refl. }
  rewrite (wrap_callable_run this method index st f Hf).
  set (st0 := with_heap st (heap st ++ [ {| o_props := ∅; o_extensible := true;
                 o_kind := KFunction (Wrapper f index) |} ])).
  set (w := VObject (length (heap st))).
  assert (Hstep : setup_step this st (fst (sobek.Set_ this method w st0))).
  { destruct (Set_frame this method w st0) as (Hl & Hg & Hc & Hlen & Hfr).
    split; [done|]. split; [done|]. split; [done|].
    split; [rewrite Hlen; cbn; rewrite length_app; lia|]. split.
    - intros l obj Hobj. apply (Set_kinds this method w st0).
      cbn. by apply lookup_app_l_Some.
    - intros l Hne Hlt. rewrite Hfr by done. cbn. by apply lookup_app_l. }
  destruct (Set_outcome this method w st0) as [err ->].
  by destruct err.
Qed.

Lemma for_range_setup_step {A : Type} (this : loc) (body : A -> M unit)
  (l : list A) :
  (forall x st, setup_step this st (fst (body x st))) ->
  forall st, setup_step this st (fst (for_range l body st)).
Proof.
  intros Hbody. induction l as [|x l IH]; intros st.
  - apply setup_step_refl.
  - cbn [for_range]. rewrite run_bind. specialize (Hbody x st).
    destruct (body x st) as [st1 [[]| |]]; cbn in *; try done.
    eapply setup_step_trans; [exact Hbody | apply IH].
Qed.

(** X11. Whether it completes or raises, [wrapHTTPExports] calls no host
    function and leaves the table and the global object alone; it removes
    no object, changes the kind of no object, and changes no object other
    than the exports object it is given. *)
Theorem wrapHTTPExports_setup_only (defaults : loc) (st : State) :
  let st' := fst (wrapHTTPExports defaults st) in
  calls st' = calls st /\ lookup st' = lookup st /\ global st' = global st /\
  (length (heap st) <= length (heap st'))%nat /\
  kinds_kept (heap st) (heap st') /\
  (forall l, l <> defaults -> (l < length (heap st))%nat ->
     heap st' !! l = heap st !! l).
Proof.
  cbn zeta.
  assert (Hstep : setup_step defaults st (fst (wrapHTTPExports defaults st))).
  { unfold wrapHTTPExports. rewrite run_bind.
    pose proof (for_range_setup_step defaults
                  (fun method => wrap defaults method 0) urlFirstMethods
                  (fun x s => wrap_setup_step defaults x 0 s) st) as H1.
    destruct (for_range urlFirstMethods _ st) as [st1 [[]| |]]; cbn in *; try done.
    eapply setup_step_trans; [exact H1|].
    apply (for_range_setup_step defaults
             (fun method => wrap defaults method 1) urlSecondMethods
             (fun x s => wrap_setup_step defaults x 1 s)). }
  destruct Hstep as (Hl & Hg & Hc & Hn & Hk & Hf). by repeat split.
Qed.

Lemma wrapHTTPExports_setup_only_witness :
  heap (fst (wrapHTTPExports 1 (exports_state ["get"; "head"]))) !! 2%nat
  = heap (exports_state ["get"; "head"]) !! 2%nat.
Proof.
  apply (proj2 (proj2 (proj2 (proj2 (proj2
           (wrapHTTPExports_setup_only 1%nat (exports_state ["get"; "head"])))))) 2%nat).
  - discriminate.
  - vm_compute. lia.
Defined.

Lemma for_range_app {A : Type} (l1 l2 : list A) (body : A -> M unit) (st : State) :
  for_range (l1 ++ l2) body st
  = (_ ← for_range l1 body; for_range l2 body) st.
Proof.
  revert st. induction l1 as [|x l1 IH]; intros st; [done|].
  cbn [for_range app]. rewrite !run_bind.
  destruct (body x st) as [st1 [[]| |]]; try done.
Qed.

Lemma for_range_fmap {A B : Type} (g : A -> B) (l : list A) (body : B -> M unit)
  (st : State) :
  for_range (g <$> l) body st = for_range l (fun x => body (g x)) st.
Proof.
  revert st. induction l as [|x l IH]; intros st; [done|].
  cbn [for_range fmap list_fmap]. rewrite !run_bind.
  destruct (body (g x) st) as [st1 [[]| |]]; try done.
Qed.

(** The two loops of [wrapHTTPExports] are one loop over [registry]. *)
Lemma wrapHTTPExports_registry (defaults : loc) (st : State) :
  wrapHTTPExports defaults st
  = for_range registry (fun mi => wrap defaults mi.1 mi.2) st.
Proof.
  unfold wrapHTTPExports, registry.
  rewrite for_range_app, !run_bind, !for_range_fmap. cbn [fst snd].
  by destruct (for_range urlFirstMethods _ st) as [st1 [[]| |]].
Qed.

Lemma registry_NoDup : NoDup registry.*1.
Proof. apply (bool_decide_unpack _). by vm_compute. Qed.

(** A loop of [wrap] over attributes that are all functions accepting an
    assignment completes; each attribute is then the closure around its
    function, with its index. *)
Lemma for_range_wrap_pairs (defaults : loc) (pairs : list (string * Z)) :
  NoDup pairs.*1 ->
  forall (st : State) (obj : Object),
    heap st !! defaults = Some obj ->
    Forall (fun mi => exists f, wrappable (heap st) obj mi.1 f) pairs ->
    exists st' obj',
      for_range pairs (fun mi => wrap defaults mi.1 mi.2) st = (st', Ok tt) /\
      heap st' !! defaults = Some obj' /\
      callables_kept (heap st) (heap st') /\
      (forall m, m ∉ pairs.*1 -> o_props obj' !! m = o_props obj !! m) /\
      (forall m i f, (m, i) ∈ pairs -> wrappable (heap st) obj m f ->
         wrapped st' defaults m f i).
Proof.
  induction pairs as [|[m i] ps IH]; intros Hnd st obj Hobj Hall.
  - exists st, obj. split; [done|]. split; [done|].
    split; [by intros v g|]. split; [done|].
    intros m i f Hin. by apply not_elem_of_nil in Hin.
  - cbn [fmap list_fmap fst] in Hnd. apply NoDup_cons in Hnd as [Hm Hnd].
    apply Forall_cons in Hall as [[f Hf] Hall]. cbn [fst] in Hf.
    set (st1 := after_wrap st defaults m i obj f).
    destruct (after_wrap_target st defaults m i obj f Hobj)
      as (obj1 & Hobj1 & _ & Hm1 & Hother1).
    pose proof (after_wrap_kept st defaults m i obj f Hobj) as Hkept1.
    fold st1 in Hobj1, Hkept1.
    assert (Hne : forall m' i', (m', i') ∈ ps -> m' <> m).
    { intros m' i' Hin ->. apply Hm. apply list_elem_of_fmap.
      by exists (m, i'). }
    assert (Hall1 : Forall (fun mi => exists f', wrappable (heap st1) obj1 mi.1 f') ps).
    { rewrite Forall_forall in Hall |- *. intros [m' i'] Hin.
      destruct (Hall _ Hin) as (f' & p & Hp & Hw & Hf').
      exists f', p. cbn [fst] in *. rewrite Hother1 by (by eapply Hne).
      split; [done|]. split; [done|]. by apply Hkept1. }
    destruct (IH Hnd st1 obj1 Hobj1 Hall1)
      as (st' & obj' & Hrun & Hobj' & Hkept & Hother & Hwrapped).
    exists st', obj'. split; [|split; [|split; [|split]]].
    + cbn [for_range fst snd]. rewrite run_bind.
      rewrite (wrap_run_ok defaults m i st obj f Hobj Hf). exact Hrun.
    + exact Hobj'.
    + by eapply callables_kept_trans.
    + intros m' Hm'. cbn [fmap list_fmap fst] in Hm'.
      apply not_elem_of_cons in Hm' as [Hne' Hm'].
      rewrite Hother by done. by apply Hother1.
    + intros m' i' f' Hin Hf'. apply elem_of_cons in Hin as [[= -> ->] | Hin].
      * rewrite (wrappable_functional _ _ _ _ _ Hf' Hf).
        unfold wrapped. rewrite (Get_unfold _ _ _ _ Hobj'), (Hother m Hm), Hm1.
        cbn [fmap option_fmap option_map p_value].
        apply Hkept. by apply after_wrap_closure.
      * apply Hwrapped; [done|].
        destruct Hf' as (p & Hp & Hw & Hf').
        exists p. rewrite Hother1 by (by eapply Hne).
        split; [done|]. split; [done|]. by apply Hkept1.
Qed.

Lemma not_callable_AssertFunction (h : list Object) (this : loc) (obj : Object)
  (method : string) :
  h !! this = Some obj ->
  not_callable_attr h obj method ->
  sobek.AssertFunction h (sobek.Get h this method) = None.
Proof.
  intros Hobj Hnc. rewrite (Get_unfold _ _ _ _ Hobj). unfold not_callable_attr in Hnc.
  destruct (o_props obj !! method) as [p|]; [|done]. cbn.
  destruct (p_value p) as [| | | | |l]; try done.
  destruct Hnc as (o & Ho & Hk).
  assert (Ho' : h !! l = Some o) by exact Ho. rewrite Ho'.
  destruct (o_kind o) eqn:Hkind; try done. by destruct (Hk f).
Qed.

Lemma AssertFunction_Get_mono (h1 h2 : list Object) (this : loc)
  (method : string) (g : Func) :
  (forall (l : loc) o, h1 !! l = Some o -> h2 !! l = Some o) ->
  sobek.AssertFunction h1 (sobek.Get h1 this method) = Some g ->
  sobek.AssertFunction h2 (sobek.Get h2 this method) = Some g.
Proof.
  intros Hmono. unfold sobek.Get.
  destruct (h1 !! this) as [obj|] eqn:Hobj; [|done].
  rewrite (Hmono _ _ Hobj). cbn.
  destruct (o_props obj !! method) as [p|]; [|done]. cbn.
  destruct (p_value p) as [| | | | |l]; try done.
  destruct (h1 !! l) as [o|] eqn:Hl; [|done].
  by rewrite (Hmono _ _ Hl).
Qed.

(** X12. [wrapHTTPExports] stops at the first attribute of its list that
    cannot be wrapped. When the attributes before it are functions that
    accept an assignment and this one is absent or not a function, it
    raises the setup failure that names this attribute; when this one is a
    function but read-only, it raises the rejected assignment. In both
    cases the attributes before it stay wrapped: the setup is not undone. *)
Theorem wrapHTTPExports_stops_at_first_failure (defaults : loc) (st : State)
  (obj : Object) (pre post : list (string * Z)) (m : string) (i : Z) :
  heap st !! defaults = Some obj ->
  registry = (pre ++ (m, i) :: post)%list ->
  Forall (fun mi => exists f, wrappable (heap st) obj mi.1 f) pre ->
  (not_callable_attr (heap st) obj m ->
   exists st',
     wrapHTTPExports defaults st
     = (st', Throw (InvalidArg (m +:+ " must be callable"))) /\
     forall m' i' f, (m', i') ∈ pre -> wrappable (heap st) obj m' f ->
       wrapped st' defaults m' f i') /\
  (forall g, read_only_callable (heap st) obj m g ->
   exists st',
     wrapHTTPExports defaults st
     = (st', Throw (TypeError ("Cannot assign to read only property '"
                               +:+ m +:+ "'"))) /\
     forall m' i' f, (m', i') ∈ pre -> wrappable (heap st) obj m' f ->
       wrapped st' defaults m' f i').
Proof.
  intros Hobj Hreg Hall.
  pose proof registry_NoDup as Hnd. rewrite Hreg, fmap_app in Hnd.
  apply NoDup_app in Hnd as (Hnd & Hdisj & _).
  assert (Hm : m ∉ pre.*1).
  { intros Hin. apply (Hdisj m Hin). cbn. apply elem_of_cons. by left. }
  destruct (for_range_wrap_pairs defaults pre Hnd st obj Hobj Hall)
    as (st1 & obj1 & Hrun & Hobj1 & Hkept & Hother & Hwrapped).
  pose proof (for_range_setup_step defaults
                (fun mi : string * Z => wrap defaults mi.1 mi.2) pre
                (fun x s => wrap_setup_step defaults x.1 x.2 s) st) as Hstep.
  rewrite Hrun in Hstep. cbn [fst] in Hstep.
  destruct Hstep as (_ & _ & _ & _ & Hkinds & _).
  assert (Hloop : wrapHTTPExports defaults st
    = (_ ← wrap defaults m i;
       for_range post (fun mi => wrap defaults mi.1 mi.2)) st1).
  { rewrite wrapHTTPExports_registry, Hreg, for_range_app, run_bind, Hrun.
    reflexivity. }
  split.
  - intros Hnc.
    assert (Hnc1 : not_callable_attr (heap st1) obj1 m).
    { unfold not_callable_attr in *. rewrite (Hother m Hm).
      destruct (o_props obj !! m) as [p|]; [|done].
      destruct (p_value p) as [| | | | |l]; try done.
      destruct Hnc as (o & Ho & Hk).
      destruct (Hkinds l o Ho) as (o' & Ho' & Hk').
      exists o'. split; [done|]. intros f. rewrite Hk'. apply Hk. }
    exists st1. split; [|done].
    rewrite Hloop, run_bind.
    by rewrite (wrap_not_callable defaults m i st1
                  (not_callable_AssertFunction _ _ _ _ Hobj1 Hnc1)).
  - intros g (p & Hp & Hw & Hg).
    rewrite <- (Hother m Hm) in Hp.
    destruct (wrap_run_rejected defaults m i st1 obj1 p g Hobj1 Hp Hw
                (Hkept _ _ Hg)) as (st2 & Hrun2).
    exists st2. split; [by rewrite Hloop, run_bind, Hrun2|].
    intros m' i' f Hin Hf. specialize (Hwrapped m' i' f Hin Hf).
    destruct (wrap_raises_heap defaults m i st1 st2 _ Hrun2)
      as (extra & Hheap & _).
    unfold wrapped in *.
    apply (AssertFunction_Get_mono (heap st1)); [|done].
    intros l o Hl. rewrite Hheap. by apply lookup_app_l_Some.
Qed.

Lemma wrapHTTPExports_stops_at_first_failure_witness :
  (exists st',
     wrapHTTPExports 1 (exports_state ["get"; "head"])
     = (st', Throw (InvalidArg "post must be callable")) /\
     forall m' i' f, (m', i') ∈ [("get", 0); ("head", 0)] ->
       wrappable (heap (exports_state ["get"; "head"]))
         (plain_object [("get", VObject 2); ("head", VObject 3)]) m' f ->
       wrapped st' 1 m' f i') /\
  (exists st',
     wrapHTTPExports 1 read_only_exports_state
     = (st', Throw (TypeError "Cannot assign to read only property 'head'")) /\
     forall m' i' f, (m', i') ∈ [("get", 0)] ->
       wrappable (heap read_only_exports_state)
         {| o_props := {[ "get" := mkProperty (VObject 2) true;
                          "head" := mkProperty (VObject 3) false ]};
            o_extensible := true; o_kind := KPlain |} m' f ->
       wrapped st' 1 m' f i').
Proof.
  split.
  - apply (proj1 (wrapHTTPExports_stops_at_first_failure 1%nat
                    (exports_state ["get"; "head"])
                    (plain_object [("get", VObject 2); ("head", VObject 3)])
                    [("get", 0); ("head", 0)]
                    [("put", 0); ("patch", 0); ("options", 0); ("del", 0);
                     ("request", 1); ("asyncRequest", 1)]
                    "post" 0 eq_refl eq_refl
                    ltac:(repeat (apply Forall_cons; split;
                            [eexists; eexists; split;
                             [reflexivity | split; reflexivity] |]);
                          apply Forall_nil; exact I))).
    exact I.
  - apply (proj2 (wrapHTTPExports_stops_at_first_failure 1%nat
                    read_only_exports_state
                    {| o_props := {[ "get" := mkProperty (VObject 2) true;
                                     "head" := mkProperty (VObject 3) false ]};
                       o_extensible := true; o_kind := KPlain |}
                    [("get", 0)]
                    [("post", 0); ("put", 0); ("patch", 0); ("options", 0);
                     ("del", 0); ("request", 1); ("asyncRequest", 1)]
                    "head" 0 eq_refl eq_refl
                    ltac:(repeat (apply Forall_cons; split;
                            [eexists; eexists; split;
                             [reflexivity | split; reflexivity] |]);
                          apply Forall_nil; exact I))
             (Native 1)).
    eexists. split; [reflexivity | split; reflexivity].
Defined.

Lemma registry_indices (m : string) (i : Z) : (m, i) ∈ registry -> 0 <= i.
Proof.
  unfold registry. intros [Hin|Hin]%elem_of_app;
    apply list_elem_of_fmap in Hin as (m' & [= _ ->] & _); lia.
Qed.



(** X14. [wrap] is not idempotent: wrapping an attribute that is already
    wrapped succeeds and puts a second closure around the first. *)
Theorem wrap_twice_nests (this : loc) (method : string) (i j : Z)
  (st : State) (obj : Object) (f : Func) :
  heap st !! this = Some obj ->
  wrappable (heap st) obj method f ->
  exists st',
    (_ ← wrap this method i; wrap this method j) st = (st', Ok tt) /\
    wrapped st' this method (Wrapper f i) j.
Proof.
  intros Hobj Hf.
  destruct (after_wrap_target st this method i obj f Hobj)
    as (obj1 & Hobj1 & _ & Hm1 & _).
  assert (Hf1 : wrappable (heap (after_wrap st this method i obj f)) obj1
                  method (Wrapper f i)).
  { eexists. split; [exact Hm1|]. split; [done|].
    by apply after_wrap_closure. }
  eexists. rewrite run_bind, (wrap_run_ok this method i st obj f Hobj Hf).
  split; [by apply wrap_run_ok|].
  by apply after_wrap_wrapped.
Qed.

Lemma wrap_twice_nests_witness :
  exists st',
    (_ ← wrap 1 "method" 0; wrap 1 "method" 0) sample_state = (st', Ok tt) /\
    wrapped st' 1 "method" (Wrapper (Native 0) 0) 0.
Proof.
  apply (wrap_twice_nests 1%nat "method" 0 0 sample_state
           (plain_object [("method", VObject 2); ("not_a_func", VInt 1)])
           (Native 0)).
  - reflexivity.
  - eexists. split; [reflexivity | split; reflexivity].
Defined.
